(** * Deployment mutators of pkg/reconcilers/deployment.go

    A shallow embedding of the Deployment mutator pipeline and of the
    field-level mutators, with the properties of the reconciliation
    specification stated and settled against it.

    Conventions of the embedding.
    - A slice field that the code tests for nil or hands to
      [reflect.DeepEqual], alone or inside a struct, is an
      [option (list _)] with [None] for the nil slice: the volumes of the pod
      spec and the args, env and volume mounts of a container.  The maps of
      the resource requirements are options of maps in the same way.  So
      equality of containers, and of their fields, is [reflect.DeepEqual],
      which tells a nil slice from an empty one.
    - The container and init-container slices of the pod spec, which the
      code only measures, indexes, ranges over, reslices, assigns and
      appends to, are the lists of their elements; so is a slice argument
      that a function only ranges over.
    - A [map[string]string] of labels or annotations is a
      [gmap string string].
    - A mutator receives [existing] by pointer and writes through it; here
      it returns the new value of [existing] next to its Go results.
    - An index out of range is a run-time panic: [Panicked]. *)

From stdpp Require Import base option list strings gmap fin_maps.

Local Open Scope string_scope.
Local Open Scope list_scope.
Local Open Scope nat_scope.

#[local] Set Warnings "-clear-no-such-hyp".

(** ** Data model (k8s.io/api core/v1 and apps/v1, the fields the mutators touch) *)

Record EnvVar := {
  EnvVar_Name : string;
  EnvVar_Value : string
}.

Record VolumeMount := {
  VolumeMount_Name : string;
  VolumeMount_MountPath : string
}.

Record Volume := {
  Volume_Name : string;
  Volume_Source : string
}.

Record ResourceRequirements := {
  Limits : option (gmap string Z);
  Requests : option (gmap string Z)
}.

Record Probe := {
  Probe_Path : string;
  Probe_Port : Z
}.

Record Container := {
  Container_Name : string;
  Container_Image : string;
  Container_Args : option (list string);
  Container_Env : option (list EnvVar);
  Container_Resources : ResourceRequirements;
  Container_VolumeMounts : option (list VolumeMount);
  Container_LivenessProbe : option Probe;
  Container_ReadinessProbe : option Probe
}.

(** The Deployment, flattened: a field is named after its path in the Go
    struct, [existing.Spec.Template.Spec.Containers] being
    [Spec_Template_Spec_Containers existing]. *)
Record Deployment := {
  ObjectMeta_Name : string;
  ObjectMeta_Annotations : gmap string string;
  Spec_Template_Labels : gmap string string;
  Spec_Template_Annotations : gmap string string;
  Spec_Template_Spec_Volumes : option (list Volume);
  Spec_Template_Spec_InitContainers : list Container;
  Spec_Template_Spec_Containers : list Container;
  Spec_Template_Spec_PriorityClassName : string
}.

#[global] Instance EnvVar_eq_dec : EqDecision EnvVar.
Proof. solve_decision. Defined.
#[global] Instance VolumeMount_eq_dec : EqDecision VolumeMount.
Proof. solve_decision. Defined.
#[global] Instance Volume_eq_dec : EqDecision Volume.
Proof. solve_decision. Defined.
#[global] Instance ResourceRequirements_eq_dec : EqDecision ResourceRequirements.
Proof. solve_decision. Defined.
#[global] Instance Probe_eq_dec : EqDecision Probe.
Proof. solve_decision. Defined.
#[global] Instance Container_eq_dec : EqDecision Container.
Proof. solve_decision. Defined.
#[global] Instance Deployment_eq_dec : EqDecision Deployment.
Proof. solve_decision. Defined.

(** Field assignments. *)

Definition set_EnvVar_Value (v : string) (e : EnvVar) : EnvVar :=
  {| EnvVar_Name := EnvVar_Name e; EnvVar_Value := v |}.

Definition set_Args (a : option (list string)) (c : Container) : Container :=
  {| Container_Name := Container_Name c; Container_Image := Container_Image c;
     Container_Args := a; Container_Env := Container_Env c;
     Container_Resources := Container_Resources c;
     Container_VolumeMounts := Container_VolumeMounts c;
     Container_LivenessProbe := Container_LivenessProbe c;
     Container_ReadinessProbe := Container_ReadinessProbe c |}.

Definition set_Env (e : option (list EnvVar)) (c : Container) : Container :=
  {| Container_Name := Container_Name c; Container_Image := Container_Image c;
     Container_Args := Container_Args c; Container_Env := e;
     Container_Resources := Container_Resources c;
     Container_VolumeMounts := Container_VolumeMounts c;
     Container_LivenessProbe := Container_LivenessProbe c;
     Container_ReadinessProbe := Container_ReadinessProbe c |}.

Definition set_Resources (r : ResourceRequirements) (c : Container) : Container :=
  {| Container_Name := Container_Name c; Container_Image := Container_Image c;
     Container_Args := Container_Args c; Container_Env := Container_Env c;
     Container_Resources := r;
     Container_VolumeMounts := Container_VolumeMounts c;
     Container_LivenessProbe := Container_LivenessProbe c;
     Container_ReadinessProbe := Container_ReadinessProbe c |}.

Definition set_VolumeMounts (m : option (list VolumeMount)) (c : Container)
    : Container :=
  {| Container_Name := Container_Name c; Container_Image := Container_Image c;
     Container_Args := Container_Args c; Container_Env := Container_Env c;
     Container_Resources := Container_Resources c;
     Container_VolumeMounts := m;
     Container_LivenessProbe := Container_LivenessProbe c;
     Container_ReadinessProbe := Container_ReadinessProbe c |}.

Definition set_LivenessProbe (p : option Probe) (c : Container) : Container :=
  {| Container_Name := Container_Name c; Container_Image := Container_Image c;
     Container_Args := Container_Args c; Container_Env := Container_Env c;
     Container_Resources := Container_Resources c;
     Container_VolumeMounts := Container_VolumeMounts c;
     Container_LivenessProbe := p;
     Container_ReadinessProbe := Container_ReadinessProbe c |}.

Definition set_ReadinessProbe (p : option Probe) (c : Container) : Container :=
  {| Container_Name := Container_Name c; Container_Image := Container_Image c;
     Container_Args := Container_Args c; Container_Env := Container_Env c;
     Container_Resources := Container_Resources c;
     Container_VolumeMounts := Container_VolumeMounts c;
     Container_LivenessProbe := Container_LivenessProbe c;
     Container_ReadinessProbe := p |}.

Definition set_ObjectMeta_Annotations (m : gmap string string) (d : Deployment) : Deployment :=
  {| ObjectMeta_Name := ObjectMeta_Name d; ObjectMeta_Annotations := m;
     Spec_Template_Labels := Spec_Template_Labels d;
     Spec_Template_Annotations := Spec_Template_Annotations d;
     Spec_Template_Spec_Volumes := Spec_Template_Spec_Volumes d;
     Spec_Template_Spec_InitContainers := Spec_Template_Spec_InitContainers d;
     Spec_Template_Spec_Containers := Spec_Template_Spec_Containers d;
     Spec_Template_Spec_PriorityClassName := Spec_Template_Spec_PriorityClassName d |}.

Definition set_Template_Labels (m : gmap string string) (d : Deployment) : Deployment :=
  {| ObjectMeta_Name := ObjectMeta_Name d;
     ObjectMeta_Annotations := ObjectMeta_Annotations d;
     Spec_Template_Labels := m;
     Spec_Template_Annotations := Spec_Template_Annotations d;
     Spec_Template_Spec_Volumes := Spec_Template_Spec_Volumes d;
     Spec_Template_Spec_InitContainers := Spec_Template_Spec_InitContainers d;
     Spec_Template_Spec_Containers := Spec_Template_Spec_Containers d;
     Spec_Template_Spec_PriorityClassName := Spec_Template_Spec_PriorityClassName d |}.

Definition set_Template_Annotations (m : gmap string string) (d : Deployment) : Deployment :=
  {| ObjectMeta_Name := ObjectMeta_Name d;
     ObjectMeta_Annotations := ObjectMeta_Annotations d;
     Spec_Template_Labels := Spec_Template_Labels d;
     Spec_Template_Annotations := m;
     Spec_Template_Spec_Volumes := Spec_Template_Spec_Volumes d;
     Spec_Template_Spec_InitContainers := Spec_Template_Spec_InitContainers d;
     Spec_Template_Spec_Containers := Spec_Template_Spec_Containers d;
     Spec_Template_Spec_PriorityClassName := Spec_Template_Spec_PriorityClassName d |}.

Definition set_Volumes (v : option (list Volume)) (d : Deployment) : Deployment :=
  {| ObjectMeta_Name := ObjectMeta_Name d;
     ObjectMeta_Annotations := ObjectMeta_Annotations d;
     Spec_Template_Labels := Spec_Template_Labels d;
     Spec_Template_Annotations := Spec_Template_Annotations d;
     Spec_Template_Spec_Volumes := v;
     Spec_Template_Spec_InitContainers := Spec_Template_Spec_InitContainers d;
     Spec_Template_Spec_Containers := Spec_Template_Spec_Containers d;
     Spec_Template_Spec_PriorityClassName := Spec_Template_Spec_PriorityClassName d |}.

Definition set_InitContainers (cs : list Container) (d : Deployment) : Deployment :=
  {| ObjectMeta_Name := ObjectMeta_Name d;
     ObjectMeta_Annotations := ObjectMeta_Annotations d;
     Spec_Template_Labels := Spec_Template_Labels d;
     Spec_Template_Annotations := Spec_Template_Annotations d;
     Spec_Template_Spec_Volumes := Spec_Template_Spec_Volumes d;
     Spec_Template_Spec_InitContainers := cs;
     Spec_Template_Spec_Containers := Spec_Template_Spec_Containers d;
     Spec_Template_Spec_PriorityClassName := Spec_Template_Spec_PriorityClassName d |}.

Definition set_Containers (cs : list Container) (d : Deployment) : Deployment :=
  {| ObjectMeta_Name := ObjectMeta_Name d;
     ObjectMeta_Annotations := ObjectMeta_Annotations d;
     Spec_Template_Labels := Spec_Template_Labels d;
     Spec_Template_Annotations := Spec_Template_Annotations d;
     Spec_Template_Spec_Volumes := Spec_Template_Spec_Volumes d;
     Spec_Template_Spec_InitContainers := Spec_Template_Spec_InitContainers d;
     Spec_Template_Spec_Containers := cs;
     Spec_Template_Spec_PriorityClassName := Spec_Template_Spec_PriorityClassName d |}.

(** The elements of a slice that may be nil. *)
Definition elems {A} (s : option (list A)) : list A := default [] s.

(** [append(s, x)]: the result is never nil. *)
Definition append {A} (s : option (list A)) (x : A) : option (list A) :=
  Some (elems s ++ [x]).

(** ** Results of a mutator *)

(** The errors built with [fmt.Errorf] in this file. *)
Inductive error :=
| ErrNotDeployment (typeName : string)
| ErrDesiredContainersLength (desiredName : string) (n : nat)
| ErrOther (msg : string).

(** What a call leaves behind: the object behind the [existing] pointer and
    the Go results [(bool, error)], or a panic. *)
Inductive outcome (A : Type) :=
| Returned (existing : A) (changed : bool) (err : option error)
| Panicked.
Arguments Returned {A} existing changed err.
Arguments Panicked {A}.

(** [type DMutateFn func(desired, existing *k8sappsv1.Deployment) (bool, error)] *)
Definition DMutateFn := Deployment → Deployment → outcome Deployment.

(** A [common.KubernetesObject]: a Deployment or a value of another dynamic
    type, kept by the name [%T] prints. *)
Inductive KubernetesObject :=
| ObjDeployment (d : Deployment)
| ObjOther (typeName : string).

(** [MutateFn], as [DeploymentMutator] builds it: existing first. *)
Definition MutateFn := KubernetesObject → KubernetesObject → outcome KubernetesObject.

(** ** DeploymentMutator *)

(** The loop [for _, opt := range opts], [update] being the accumulator. *)
Fixpoint DeploymentMutator_loop (opts : list DMutateFn) (desired existing : Deployment)
    (update : bool) : outcome Deployment :=
  match opts with
  | [] => Returned existing update None
  | opt :: opts' =>
      match opt desired existing with
      | Panicked => Panicked
      | Returned existing' tmpUpdate (Some err) => Returned existing' false (Some err)
      | Returned existing' tmpUpdate None =>
          DeploymentMutator_loop opts' desired existing' (update || tmpUpdate)
      end
  end.

Definition DeploymentMutator (opts : list DMutateFn) : MutateFn :=
  λ existingObj desiredObj,
    match existingObj with
    | ObjOther t => Returned existingObj false (Some (ErrNotDeployment t))
    | ObjDeployment existing =>
        match desiredObj with
        | ObjOther t => Returned existingObj false (Some (ErrNotDeployment t))
        | ObjDeployment desired =>
            match DeploymentMutator_loop opts desired existing false with
            | Panicked => Panicked
            | Returned existing' update err => Returned (ObjDeployment existing') update err
            end
        end
    end.

(** ** Loops *)

(** [for i, x := range l { body }] over the slice [l] as it is when the loop
    starts, the body working on a state [St]; [None] is a panic in the body. *)
Fixpoint for_range {A St} (i : nat) (l : list A) (body : nat → A → St → option St)
    (s : St) : option St :=
  match l with
  | [] => Some s
  | x :: l' =>
      match body i x s with
      | None => None
      | Some s' => for_range (S i) l' body s'
      end
  end.

(** ** Map-merge mutators *)

(** Modelled from the spec: [helper.MergeMapStringString], of package helper,
    which is not among the sources.  "For every key in desired, set it in
    existing (overwrite); keys present only in existing are preserved.
    [changed] true iff the merged map differs from the original."  The Go
    function writes through [*modified] and [*existing]; both new values are
    returned here. *)
Definition MergeMapStringString (modified : bool) (existing desired : gmap string string)
    : bool * gmap string string :=
  let merged := map_fold (λ key value acc, <[key := value]> acc) existing desired in
  (if decide (merged = existing) then modified else true, merged).

Definition DeploymentAnnotationsMutator : DMutateFn := λ desired existing,
  let updated := false in
  let '(updated, annotations) :=
    MergeMapStringString updated (ObjectMeta_Annotations existing)
      (ObjectMeta_Annotations desired) in
  Returned (set_ObjectMeta_Annotations annotations existing) updated None.

Definition DeploymentPodTemplateLabelsMutator : DMutateFn := λ desired existing,
  let updated := false in
  let '(updated, labels) :=
    MergeMapStringString updated (Spec_Template_Labels existing)
      (Spec_Template_Labels desired) in
  Returned (set_Template_Labels labels existing) updated None.

Definition DeploymentPodTemplateAnnotationsMutator : DMutateFn := λ desired existing,
  let updated := false in
  let '(updated, annotations) :=
    MergeMapStringString updated (Spec_Template_Annotations existing)
      (Spec_Template_Annotations desired) in
  Returned (set_Template_Annotations annotations existing) updated None.

(** ** Mutators that call helpers outside the sources *)

Section Helpers.

(** [common.ObjectInfo], [helper.CmpResources] and [helper.EnvVarReconciler]
    are not among the sources; the mutators are parametric in them.
    [EnvVarReconciler desired existing envVar] returns the new value of
    [*existing] and its boolean result. *)
Variable ObjectInfo : Deployment → string.
Variable CmpResources : ResourceRequirements → ResourceRequirements → bool.
Variable EnvVarReconciler :
  option (list EnvVar) → option (list EnvVar) → string → option (list EnvVar) * bool.

Definition DeploymentContainerResourcesMutator : DMutateFn := λ desired existing,
  let desiredName := ObjectInfo desired in
  let update := false in
  if decide (length (Spec_Template_Spec_Containers desired) ≠ 1) then
    Returned existing false
      (Some (ErrDesiredContainersLength desiredName
               (length (Spec_Template_Spec_Containers desired))))
  else
    let '(existing, update) :=
      if decide (length (Spec_Template_Spec_Containers existing) ≠ 1) then
        (set_Containers (Spec_Template_Spec_Containers desired) existing, true)
      else (existing, update) in
    match Spec_Template_Spec_Containers existing !! 0,
          Spec_Template_Spec_Containers desired !! 0 with
    | Some e0, Some d0 =>
        if negb (CmpResources (Container_Resources e0) (Container_Resources d0)) then
          Returned
            (set_Containers
               (<[0 := set_Resources (Container_Resources d0) e0]>
                  (Spec_Template_Spec_Containers existing)) existing)
            true None
        else Returned existing update None
    | _, _ => Panicked
    end.

(** One iteration of either loop of [DeploymentEnvVarReconciler]: the
    containers of [existing] so far and [updated] are the state. *)
Definition EnvVarReconciler_at (desiredContainers : list Container) (envVar : string)
    (idx : nat) (_ : Container) (st : list Container * bool)
    : option (list Container * bool) :=
  let '(containers, updated) := st in
  match desiredContainers !! idx, containers !! idx with
  | Some d, Some e =>
      let '(env, tmpChanged) :=
        EnvVarReconciler (Container_Env d) (Container_Env e) envVar in
      Some (<[idx := set_Env env e]> containers, updated || tmpChanged)
  | _, _ => None
  end.

(** Returns [bool] only; [None] is a panic. *)
Definition DeploymentEnvVarReconciler (desired existing : Deployment) (envVar : string)
    : option (Deployment * bool) :=
  let updated := false in
  if decide (length (Spec_Template_Spec_Containers desired)
             ≠ length (Spec_Template_Spec_Containers existing)) then
    Some (existing, false)
  else if decide (length (Spec_Template_Spec_InitContainers desired)
                  ≠ length (Spec_Template_Spec_InitContainers existing)) then
    Some (existing, false)
  else
    match for_range 0 (Spec_Template_Spec_InitContainers existing)
            (EnvVarReconciler_at (Spec_Template_Spec_InitContainers desired) envVar)
            (Spec_Template_Spec_InitContainers existing, updated) with
    | None => None
    | Some (initContainers, updated) =>
        let existing := set_InitContainers initContainers existing in
        match for_range 0 (Spec_Template_Spec_Containers existing)
                (EnvVarReconciler_at (Spec_Template_Spec_Containers desired) envVar)
                (Spec_Template_Spec_Containers existing, updated) with
        | None => None
        | Some (containers, updated) =>
            Some (set_Containers containers existing, updated)
        end
    end.

End Helpers.

(** ** Structural-replace mutators *)

Definition DeploymentPriorityClassMutator : DMutateFn := λ desired existing,
  let updated := false in
  if decide (Spec_Template_Spec_PriorityClassName existing
             ≠ Spec_Template_Spec_PriorityClassName desired) then
    Returned
      {| ObjectMeta_Name := ObjectMeta_Name existing;
         ObjectMeta_Annotations := ObjectMeta_Annotations existing;
         Spec_Template_Labels := Spec_Template_Labels existing;
         Spec_Template_Annotations := Spec_Template_Annotations existing;
         Spec_Template_Spec_Volumes := Spec_Template_Spec_Volumes existing;
         Spec_Template_Spec_InitContainers := Spec_Template_Spec_InitContainers existing;
         Spec_Template_Spec_Containers := Spec_Template_Spec_Containers existing;
         Spec_Template_Spec_PriorityClassName :=
           Spec_Template_Spec_PriorityClassName desired |}
      true None
  else Returned existing updated None.

(** Body of the loop of [DeploymentArgsMutator]; [existing.Containers[i]]
    panics out of range.  The test is [!reflect.DeepEqual] on the two [Args]
    slices: inequality of [option (list string)], under which a nil slice
    and an empty one differ. *)
Definition ArgsMutator_at (i : nat) (desiredContainer : Container)
    (st : list Container * bool) : option (list Container * bool) :=
  let '(containers, updated) := st in
  match containers !! i with
  | None => None
  | Some existingContainer =>
      if decide (Container_Args existingContainer ≠ Container_Args desiredContainer) then
        Some (<[i := set_Args (Container_Args desiredContainer) existingContainer]>
                containers, true)
      else Some (containers, updated)
  end.

Definition DeploymentArgsMutator : DMutateFn := λ desired existing,
  let updated := false in
  match for_range 0 (Spec_Template_Spec_Containers desired) ArgsMutator_at
          (Spec_Template_Spec_Containers existing, updated) with
  | None => Panicked
  | Some (containers, updated) => Returned (set_Containers containers existing) updated None
  end.

Definition ProbesMutator_at (i : nat) (desiredContainer : Container)
    (st : list Container * bool) : option (list Container * bool) :=
  let '(containers, updated) := st in
  match containers !! i with
  | None => None
  | Some existingContainer =>
      let '(existingContainer, updated) :=
        if decide (Container_LivenessProbe existingContainer
                   ≠ Container_LivenessProbe desiredContainer) then
          (set_LivenessProbe (Container_LivenessProbe desiredContainer) existingContainer,
           true)
        else (existingContainer, updated) in
      let '(existingContainer, updated) :=
        if decide (Container_ReadinessProbe existingContainer
                   ≠ Container_ReadinessProbe desiredContainer) then
          (set_ReadinessProbe (Container_ReadinessProbe desiredContainer) existingContainer,
           true)
        else (existingContainer, updated) in
      Some (<[i := existingContainer]> containers, updated)
  end.

Definition DeploymentProbesMutator : DMutateFn := λ desired existing,
  let updated := false in
  match for_range 0 (Spec_Template_Spec_Containers desired) ProbesMutator_at
          (Spec_Template_Spec_Containers existing, updated) with
  | None => Panicked
  | Some (containers, updated) => Returned (set_Containers containers existing) updated None
  end.

(** ** Listener-mode mutators *)

Definition falconArgs : list string :=
  ["bin/3scale_backend"; "-s"; "falcon"; "start"; "-e"; "production"; "-p"; "3000";
   "-x"; "/dev/stdout"].

Definition DeploymentListenerArgsMutator : DMutateFn := λ _ existing,
  let update := true in
  match Spec_Template_Spec_Containers existing !! 0 with
  | None => Panicked
  | Some c0 =>
      if decide (Container_Args c0 ≠ Some falconArgs) then
        Returned
          (set_Containers
             (<[0 := set_Args (Some falconArgs) c0]>
                (Spec_Template_Spec_Containers existing))
             existing)
          update None
      else Returned existing false None
  end.

(** Modelled from the spec: [helper.EnvVarFromValue], of package helper, which
    is not among the sources: the environment entry of that name and value. *)
Definition EnvVarFromValue (name value : string) : EnvVar :=
  {| EnvVar_Name := name; EnvVar_Value := value |}.

(** The loop of [removeEnvVar]; [newEnvVars] starts as the nil slice and is
    only appended to. *)
Fixpoint removeEnvVar_loop (envVars : list EnvVar) (name : string)
    (newEnvVars : option (list EnvVar)) : option (list EnvVar) :=
  match envVars with
  | [] => newEnvVars
  | envVar :: envVars' =>
      if decide (EnvVar_Name envVar ≠ name) then
        removeEnvVar_loop envVars' name (append newEnvVars envVar)
      else removeEnvVar_loop envVars' name newEnvVars
  end.

Definition removeEnvVar (envVars : option (list EnvVar)) (name : string)
    : option (list EnvVar) :=
  removeEnvVar_loop (elems envVars) name None.

(** [env[envId].Value = value], a panic out of range; a slice with an
    element is not nil. *)
Definition set_Value_at (envId : nat) (value : string) (env : option (list EnvVar))
    : option (option (list EnvVar)) :=
  match elems env !! envId with
  | None => None
  | Some e => Some (Some (<[envId := set_EnvVar_Value value e]> (elems env)))
  end.

(** How the loop over [Containers[0].Env] of a listener env mutator ends:
    it panicked, it returned [true, nil] from inside the loop, or it ran to
    the end with the two flags. *)
Inductive env_scan :=
| ScanPanicked
| ScanReturned (env : option (list EnvVar))
| ScanDone (env : option (list EnvVar))
    (updateListenerWorkers updateConfigRedisAsync : bool).

(** The loop of [DeploymentListenerAsyncDisableEnvMutator]; [pending] is what
    is left of the ranged slice, [env] the current [Containers[0].Env].
    [update] is false at the head of every iteration. *)
Fixpoint ListenerAsyncDisableEnv_loop (envId : nat) (pending : list EnvVar)
    (env : option (list EnvVar)) (updateListenerWorkers updateConfigRedisAsync : bool)
    : env_scan :=
  match pending with
  | [] => ScanDone env updateListenerWorkers updateConfigRedisAsync
  | envVar :: pending' =>
      let update := false in
      let '(env, updateListenerWorkers, update) :=
        if decide (EnvVar_Name envVar = "LISTENER_WORKERS") then
          if decide (EnvVar_Value envVar = "1") then
            (removeEnvVar env "LISTENER_WORKERS", false, true)
          else (env, false, update)
        else (env, updateListenerWorkers, update) in
      let step :=
        if decide (EnvVar_Name envVar = "CONFIG_REDIS_ASYNC") then
          if decide (EnvVar_Value envVar = "1") then
            match set_Value_at envId "0" env with
            | None => None
            | Some env => Some (env, false, true)
            end
          else Some (env, false, update)
        else Some (env, updateConfigRedisAsync, update) in
      match step with
      | None => ScanPanicked
      | Some (env, updateConfigRedisAsync, update) =>
          if update then ScanReturned env
          else ListenerAsyncDisableEnv_loop (S envId) pending' env
                 updateListenerWorkers updateConfigRedisAsync
      end
  end.

Definition DeploymentListenerAsyncDisableEnvMutator : DMutateFn := λ desired existing,
  match Spec_Template_Spec_Containers existing !! 0 with
  | None => Panicked
  | Some c0 =>
      let store env :=
        set_Containers
          (<[0 := set_Env env c0]> (Spec_Template_Spec_Containers existing)) existing in
      match ListenerAsyncDisableEnv_loop 0 (elems (Container_Env c0)) (Container_Env c0)
              true true with
      | ScanPanicked => Panicked
      | ScanReturned env => Returned (store env) true None
      | ScanDone env updateListenerWorkers updateConfigRedisAsync =>
          let update :=
            if updateListenerWorkers || updateConfigRedisAsync then true else false in
          let env :=
            if updateConfigRedisAsync then
              append env (EnvVarFromValue "CONFIG_REDIS_ASYNC" "0")
            else env in
          let env :=
            if updateListenerWorkers then removeEnvVar env "LISTENER_WORKERS" else env in
          Returned (store env) update None
      end
  end.

(** The loop of [DeploymentListenerEnvMutator]. *)
Fixpoint ListenerEnv_loop (envId : nat) (pending : list EnvVar)
    (env : option (list EnvVar)) (updateListenerWorkers updateConfigRedisAsync : bool)
    : env_scan :=
  match pending with
  | [] => ScanDone env updateListenerWorkers updateConfigRedisAsync
  | envVar :: pending' =>
      let update := false in
      let step :=
        if decide (EnvVar_Name envVar = "LISTENER_WORKERS") then
          if decide (EnvVar_Value envVar = "0") then
            match set_Value_at envId "1" env with
            | None => None
            | Some env => Some (env, false, true)
            end
          else Some (env, false, update)
        else Some (env, updateListenerWorkers, update) in
      match step with
      | None => ScanPanicked
      | Some (env, updateListenerWorkers, update) =>
          let step :=
            if decide (EnvVar_Name envVar = "CONFIG_REDIS_ASYNC") then
              if decide (EnvVar_Value envVar = "0") then
                match set_Value_at envId "1" env with
                | None => None
                | Some env => Some (env, false, true)
                end
              else Some (env, false, update)
            else Some (env, updateConfigRedisAsync, update) in
          match step with
          | None => ScanPanicked
          | Some (env, updateConfigRedisAsync, update) =>
              if update then ScanReturned env
              else ListenerEnv_loop (S envId) pending' env
                     updateListenerWorkers updateConfigRedisAsync
          end
      end
  end.

Definition DeploymentListenerEnvMutator : DMutateFn := λ desired existing,
  match Spec_Template_Spec_Containers existing !! 0 with
  | None => Panicked
  | Some c0 =>
      let store env :=
        set_Containers
          (<[0 := set_Env env c0]> (Spec_Template_Spec_Containers existing)) existing in
      match ListenerEnv_loop 0 (elems (Container_Env c0)) (Container_Env c0)
              true true with
      | ScanPanicked => Panicked
      | ScanReturned env => Returned (store env) true None
      | ScanDone env updateListenerWorkers updateConfigRedisAsync =>
          let update :=
            if updateListenerWorkers || updateConfigRedisAsync then true else false in
          let env :=
            if updateConfigRedisAsync then
              append env (EnvVarFromValue "CONFIG_REDIS_ASYNC" "1")
            else env in
          let env :=
            if updateListenerWorkers then
              append env (EnvVarFromValue "LISTENER_WORKERS" "1")
            else env in
          Returned (store env) update None
      end
  end.

(** ** Init-container full sync *)

(** Body of the loop over [desired.InitContainers].  The test is
    [!reflect.DeepEqual] on the two containers: inequality of [Container],
    whose slices and maps are options, so that a nil one and an empty one
    differ. *)
Definition PodInitContainerMutator_at (i : nat) (desiredInitContainer : Container)
    (st : list Container * bool) : option (list Container * bool) :=
  let '(initContainers, updated) := st in
  if decide (length initContainers ≤ i) then
    Some (initContainers ++ [desiredInitContainer], true)
  else
    match initContainers !! i with
    | None => None
    | Some existingInitContainer =>
        if decide (existingInitContainer ≠ desiredInitContainer) then
          Some (<[i := desiredInitContainer]> initContainers, true)
        else Some (initContainers, updated)
    end.

Definition DeploymentPodInitContainerMutator : DMutateFn := λ desired existing,
  let updated := false in
  let '(initContainers, updated) :=
    if decide (length (Spec_Template_Spec_InitContainers desired)
               < length (Spec_Template_Spec_InitContainers existing)) then
      (take (length (Spec_Template_Spec_InitContainers desired))
         (Spec_Template_Spec_InitContainers existing), true)
    else (Spec_Template_Spec_InitContainers existing, updated) in
  match for_range 0 (Spec_Template_Spec_InitContainers desired)
          PodInitContainerMutator_at (initContainers, updated) with
  | None => Panicked
  | Some (initContainers, updated) =>
      Returned (set_InitContainers initContainers existing) updated None
  end.

(** ** Additive volume and volume-mount sync *)

Fixpoint volumeExists (volumes : list Volume) (name : string) : bool :=
  match volumes with
  | [] => false
  | v :: volumes' => if decide (Volume_Name v = name) then true else volumeExists volumes' name
  end.

Fixpoint volumeMountExists (volumeMounts : list VolumeMount) (name : string) : bool :=
  match volumeMounts with
  | [] => false
  | vm :: volumeMounts' =>
      if decide (VolumeMount_Name vm = name) then true
      else volumeMountExists volumeMounts' name
  end.

(** The loop of [syncVolumeMounts]; every test is against [existingMounts],
    the argument, not against the slice being built. *)
Fixpoint syncVolumeMounts_loop (existingMounts desiredMounts : list VolumeMount)
    (changed : bool) (newVolumeMounts : option (list VolumeMount))
    : bool * option (list VolumeMount) :=
  match desiredMounts with
  | [] => (changed, newVolumeMounts)
  | desiredMount :: desiredMounts' =>
      if negb (volumeMountExists existingMounts (VolumeMount_Name desiredMount)) then
        syncVolumeMounts_loop existingMounts desiredMounts' true
          (append newVolumeMounts desiredMount)
      else syncVolumeMounts_loop existingMounts desiredMounts' changed newVolumeMounts
  end.

Definition syncVolumeMounts (existingMounts desiredMounts : option (list VolumeMount))
    : bool * option (list VolumeMount) :=
  syncVolumeMounts_loop (elems existingMounts) (elems desiredMounts) false existingMounts.

(** The loop "Add missing Volumes"; the test is against the volumes of
    [existing] as they are by then. *)
Fixpoint addMissingVolumes (desiredVolumes volumes : list Volume) (changed : bool)
    : list Volume * bool :=
  match desiredVolumes with
  | [] => (volumes, changed)
  | desiredVolume :: desiredVolumes' =>
      if negb (volumeExists volumes (Volume_Name desiredVolume)) then
        addMissingVolumes desiredVolumes' (volumes ++ [desiredVolume]) true
      else addMissingVolumes desiredVolumes' volumes changed
  end.

(** Body of either volume-mount loop; [desired.Containers[cIdx]] panics out
    of range. *)
Definition syncVolumeMounts_at (desiredContainers : list Container) (cIdx : nat)
    (_ : Container) (st : list Container * bool) : option (list Container * bool) :=
  let '(containers, changed) := st in
  match containers !! cIdx, desiredContainers !! cIdx with
  | Some e, Some d =>
      let '(updated, newVolumeMounts) :=
        syncVolumeMounts (Container_VolumeMounts e) (Container_VolumeMounts d) in
      if updated then
        Some (<[cIdx := set_VolumeMounts newVolumeMounts e]> containers, true)
      else Some (containers, changed)
  | _, _ => None
  end.

Definition DeploymentSyncVolumesAndMountsMutator : DMutateFn := λ desired existing,
  let changed := false in
  let volumes :=
    match Spec_Template_Spec_Volumes existing with
    | None => []
    | Some volumes => volumes
    end in
  let '(volumes, changed) :=
    addMissingVolumes (elems (Spec_Template_Spec_Volumes desired)) volumes changed in
  match for_range 0 (Spec_Template_Spec_Containers existing)
          (syncVolumeMounts_at (Spec_Template_Spec_Containers desired))
          (Spec_Template_Spec_Containers existing, changed) with
  | None => Panicked
  | Some (containers, changed) =>
      match for_range 0 (Spec_Template_Spec_InitContainers existing)
              (syncVolumeMounts_at (Spec_Template_Spec_InitContainers desired))
              (Spec_Template_Spec_InitContainers existing, changed) with
      | None => Panicked
      | Some (initContainers, changed) =>
          Returned
            (set_InitContainers initContainers
               (set_Containers containers (set_Volumes (Some volumes) existing)))
            changed None
      end
  end.

(** ** Removal of the TLS volumes and mounts *)

Definition volumeNamesToRemove : list string := ["writable-tls"; "tls-secret"].

(** The inner loops of [DeploymentRemoveTLSVolumesAndMountsMutator]: the first
    element of that name is cut out, [append(s[:idx], s[idx+1:]...)], and the
    loop breaks.  The boolean tells whether one was found. *)
Definition removeFirstNamed {A} (name_of : A → string) (volumeName : string) (s : list A)
    : list A * bool :=
  match list_find (λ x, name_of x = volumeName) s with
  | Some (idx, _) => (take idx s ++ drop (S idx) s, true)
  | None => (s, false)
  end.

(** The outer loop over [volumeNamesToRemove] on the volumes. *)
Fixpoint removeVolumes (names : list string) (volumes : list Volume) (volumeModified : bool)
    : list Volume * bool :=
  match names with
  | [] => (volumes, volumeModified)
  | volumeName :: names' =>
      let '(volumes, found) := removeFirstNamed Volume_Name volumeName volumes in
      removeVolumes names' volumes (if found then true else volumeModified)
  end.

(** The loop over [volumeNamesToRemove] on the mounts of one container; the
    mounts are assigned only where one of that name was found. *)
Fixpoint removeMounts (names : list string) (volumeMounts : option (list VolumeMount))
    : option (list VolumeMount) :=
  match names with
  | [] => volumeMounts
  | volumeName :: names' =>
      let '(cut, found) :=
        removeFirstNamed VolumeMount_Name volumeName (elems volumeMounts) in
      removeMounts names' (if found then Some cut else volumeMounts)
  end.

(** Body of the loops over the containers and over the init containers. *)
Definition removeMounts_at (cIdx : nat) (container : Container) (containers : list Container)
    : option (list Container) :=
  let container :=
    set_VolumeMounts (removeMounts volumeNamesToRemove (Container_VolumeMounts container))
      container in
  match containers !! cIdx with
  | None => None
  | Some _ => Some (<[cIdx := container]> containers)
  end.

Definition DeploymentRemoveTLSVolumesAndMountsMutator : DMutateFn := λ desired existing,
  match Spec_Template_Spec_Volumes existing with
  | None => Returned existing false None
  | Some volumes =>
      let volumeModified := false in
      let '(volumes, volumeModified) :=
        removeVolumes volumeNamesToRemove volumes volumeModified in
      let existing := set_Volumes (Some volumes) existing in
      if volumeModified then
        match for_range 0 (Spec_Template_Spec_Containers existing) removeMounts_at
                (Spec_Template_Spec_Containers existing) with
        | None => Panicked
        | Some containers =>
            let existing := set_Containers containers existing in
            match for_range 0 (Spec_Template_Spec_InitContainers existing) removeMounts_at
                    (Spec_Template_Spec_InitContainers existing) with
            | None => Panicked
            | Some initContainers =>
                Returned (set_InitContainers initContainers existing) true None
            end
        end
      else Returned existing false None
  end.

(** ** Further mutators of deployment.go *)

(** Calls of [log.Info] and [fmt.Printf] are not modelled. *)

Definition set_Image (image : string) (c : Container) : Container :=
  {| Container_Name := Container_Name c; Container_Image := image;
     Container_Args := Container_Args c; Container_Env := Container_Env c;
     Container_Resources := Container_Resources c;
     Container_VolumeMounts := Container_VolumeMounts c;
     Container_LivenessProbe := Container_LivenessProbe c;
     Container_ReadinessProbe := Container_ReadinessProbe c |}.

Definition PodContainerImageMutator_at (i : nat) (desiredContainer : Container)
    (st : list Container * bool) : option (list Container * bool) :=
  let '(containers, updated) := st in
  match containers !! i with
  | None => None
  | Some existingContainer =>
      if decide (Container_Image existingContainer ≠ Container_Image desiredContainer) then
        Some (<[i := set_Image (Container_Image desiredContainer) existingContainer]>
                containers, true)
      else Some (containers, updated)
  end.

Definition DeploymentPodContainerImageMutator : DMutateFn := λ desired existing,
  let updated := false in
  match for_range 0 (Spec_Template_Spec_Containers desired) PodContainerImageMutator_at
          (Spec_Template_Spec_Containers existing, updated) with
  | None => Panicked
  | Some (containers, updated) => Returned (set_Containers containers existing) updated None
  end.

Definition PodInitContainerImageMutator_at (i : nat) (desiredContainer : Container)
    (st : list Container * bool) : option (list Container * bool) :=
  let '(initContainers, updated) := st in
  if decide (length initContainers ≤ i) then
    Some (initContainers ++ [desiredContainer], true)
  else
    match initContainers !! i with
    | None => None
    | Some existingContainer =>
        if decide (Container_Image existingContainer ≠ Container_Image desiredContainer)
        then
          Some (<[i := set_Image (Container_Image desiredContainer) existingContainer]>
                  initContainers, true)
        else Some (initContainers, updated)
    end.

Definition DeploymentPodInitContainerImageMutator : DMutateFn := λ desired existing,
  let updated := false in
  match for_range 0 (Spec_Template_Spec_InitContainers desired)
          PodInitContainerImageMutator_at
          (Spec_Template_Spec_InitContainers existing, updated) with
  | None => Panicked
  | Some (initContainers, updated) =>
      Returned (set_InitContainers initContainers existing) updated None
  end.

(** The [falconArgs] of [DeploymentListenerAsyncDisableArgsMutator]. *)
Definition asyncDisableArgs : list string :=
  ["bin/3scale_backend"; "start"; "-e"; "production"; "-p"; "3000"; "-x"; "/dev/stdout"].

Definition DeploymentListenerAsyncDisableArgsMutator : DMutateFn := λ _ existing,
  let update := true in
  match Spec_Template_Spec_Containers existing !! 0 with
  | None => Panicked
  | Some c0 =>
      if decide (Container_Args c0 ≠ Some asyncDisableArgs) then
        Returned
          (set_Containers
             (<[0 := set_Args (Some asyncDisableArgs) c0]>
                (Spec_Template_Spec_Containers existing))
             existing)
          update None
      else Returned existing false None
  end.

(** How the loop of a worker env mutator ends: a panic, the [return] inside
    the loop, or the end of the slice with [update]. *)
Inductive worker_scan :=
| WorkerPanicked
| WorkerReturned (env : option (list EnvVar))
| WorkerDone (update : bool).

(** The loop of [DeploymentWorkerEnvMutator] ([from = "0"], [to = "1"]) and of
    [DeploymentWorkerDisableAsyncEnvMutator] ([from = "1"], [to = "0"]), which
    differ in these two constants only. *)
Fixpoint WorkerEnv_loop (from to : string) (envId : nat) (pending : list EnvVar)
    (env : option (list EnvVar)) (update : bool) : worker_scan :=
  match pending with
  | [] => WorkerDone update
  | envVar :: pending' =>
      if decide (EnvVar_Name envVar = "CONFIG_REDIS_ASYNC") then
        if decide (EnvVar_Value envVar = from) then
          match set_Value_at envId to env with
          | None => WorkerPanicked
          | Some env => WorkerReturned env
          end
        else WorkerEnv_loop from to (S envId) pending' env false
      else WorkerEnv_loop from to (S envId) pending' env update
  end.

Definition WorkerEnvMutator (from to : string) : DMutateFn := λ desired existing,
  let update := true in
  match Spec_Template_Spec_Containers existing !! 0 with
  | None => Panicked
  | Some c0 =>
      let store env :=
        set_Containers
          (<[0 := set_Env env c0]> (Spec_Template_Spec_Containers existing)) existing in
      match WorkerEnv_loop from to 0 (elems (Container_Env c0)) (Container_Env c0)
              update with
      | WorkerPanicked => Panicked
      | WorkerReturned env => Returned (store env) true None
      | WorkerDone update =>
          if update then
            Returned
              (store (append (Container_Env c0) (EnvVarFromValue "CONFIG_REDIS_ASYNC" to)))
              update None
          else Returned existing update None
      end
  end.

Definition DeploymentWorkerEnvMutator : DMutateFn := WorkerEnvMutator "0" "1".

Definition DeploymentWorkerDisableAsyncEnvMutator : DMutateFn := WorkerEnvMutator "1" "0".

Section DuplicateEnvVars.

(** [helper.RemoveDuplicateEnvVars] is not among the sources; the mutator is
    parametric in it.  Its result is compared with [Env] by
    [reflect.DeepEqual], as slices: a nil one and an empty one differ. *)
Variable RemoveDuplicateEnvVars : option (list EnvVar) → option (list EnvVar).

Definition RemoveDuplicateEnvVarMutator_at (idx : nat) (_ : Container)
    (st : list Container * bool) : option (list Container * bool) :=
  let '(containers, updated) := st in
  match containers !! idx with
  | None => None
  | Some c =>
      let prunedEnvs := RemoveDuplicateEnvVars (Container_Env c) in
      if decide (Container_Env c ≠ prunedEnvs) then
        Some (<[idx := set_Env prunedEnvs c]> containers, true)
      else Some (containers, updated)
  end.

Definition DeploymentRemoveDuplicateEnvVarMutator : DMutateFn := λ _ existing,
  let updated := false in
  match for_range 0 (Spec_Template_Spec_Containers existing)
          RemoveDuplicateEnvVarMutator_at
          (Spec_Template_Spec_Containers existing, updated) with
  | None => Panicked
  | Some (containers, updated) => Returned (set_Containers containers existing) updated None
  end.

End DuplicateEnvVars.

(** ** Notions the statements use *)

(** [runs_clean desired existing opts changes final]: run one after the other
    on [existing], each on what the one before left, the mutators [opts] all
    return a nil error, their [changed] results being [changes] in list
    order, and leave [final]. *)
Inductive runs_clean (desired : Deployment)
    : Deployment → list DMutateFn → list bool → Deployment → Prop :=
| runs_clean_nil existing : runs_clean desired existing [] [] existing
| runs_clean_cons existing opt opts changed existing' changes final :
    opt desired existing = Returned existing' changed None →
    runs_clean desired existing' opts changes final →
    runs_clean desired existing (opt :: opts) (changed :: changes) final.

Definition is_Deployment (obj : KubernetesObject) : bool :=
  match obj with
  | ObjDeployment _ => true
  | ObjOther _ => false
  end.

(** A mutator that must not be reached: it panics when called. *)
Definition unreachable_mutator : DMutateFn := λ _ _, Panicked.

(** The slice of the elements [l], nil when there is none. *)
Definition slice_of {A} (l : list A) : option (list A) :=
  match l with
  | [] => None
  | _ => Some l
  end.

(** Sample objects for the concrete instances. *)
Definition sample_container (env : list EnvVar) (mounts : list VolumeMount) : Container :=
  {| Container_Name := "backend-listener"; Container_Image := "backend:latest";
     Container_Args := None; Container_Env := slice_of env;
     Container_Resources := {| Limits := None; Requests := None |};
     Container_VolumeMounts := slice_of mounts;
     Container_LivenessProbe := None; Container_ReadinessProbe := None |}.

Definition sample_deployment (volumes : option (list Volume))
    (initContainers containers : list Container) : Deployment :=
  {| ObjectMeta_Name := "backend-listener"; ObjectMeta_Annotations := ∅;
     Spec_Template_Labels := ∅; Spec_Template_Annotations := ∅;
     Spec_Template_Spec_Volumes := volumes;
     Spec_Template_Spec_InitContainers := initContainers;
     Spec_Template_Spec_Containers := containers;
     Spec_Template_Spec_PriorityClassName := "" |}.

Definition sample_ObjectInfo (d : Deployment) : string := ObjectMeta_Name d.

Definition sample_CmpResources (a b : ResourceRequirements) : bool := bool_decide (a = b).

Definition sample_EnvVarReconciler (desired existing : option (list EnvVar))
    (envVar : string) : option (list EnvVar) * bool :=
  (existing, false).

Definition CONFIG_REDIS_ASYNC (value : string) : EnvVar :=
  {| EnvVar_Name := "CONFIG_REDIS_ASYNC"; EnvVar_Value := value |}.

Definition LISTENER_WORKERS (value : string) : EnvVar :=
  {| EnvVar_Name := "LISTENER_WORKERS"; EnvVar_Value := value |}.

(** One container with the environment [env], nothing else. *)
Definition listener (env : list EnvVar) : Deployment :=
  sample_deployment None [] [sample_container env []].

(** What the spec asks of a merge of [desired] into [existing]. *)
Definition merged_as_specified (existing desired merged : gmap string string)
    (changed : bool) : Prop :=
  (∀ key value, desired !! key = Some value → merged !! key = Some value)
  ∧ (∀ key, desired !! key = None → merged !! key = existing !! key)
  ∧ (changed = true ↔ merged ≠ existing).

(** The names of the volumes of a Deployment and of the mounts of a container. *)
Definition volume_names (d : Deployment) : list string :=
  Volume_Name <$> elems (Spec_Template_Spec_Volumes d).

Definition mount_names (c : Container) : list string :=
  VolumeMount_Name <$> elems (Container_VolumeMounts c).

(** [mounts_additive desiredContainers before after]: container by container,
    [after] has every mount name [before] had and every mount name of the
    desired container at the same index. *)
Definition mounts_additive (desiredContainers before after : list Container) : Prop :=
  length after = length before
  ∧ ∀ i e, before !! i = Some e →
      ∃ e' d, after !! i = Some e' ∧ desiredContainers !! i = Some d
              ∧ mount_names e ⊆ mount_names e' ∧ mount_names d ⊆ mount_names e'.

(** A volume, a mount, named as one of [volumeNamesToRemove]. *)
Definition has_TLS_volume (d : Deployment) : Prop :=
  ∃ v, v ∈ elems (Spec_Template_Spec_Volumes d) ∧ Volume_Name v ∈ volumeNamesToRemove.

Definition has_TLS_mount (d : Deployment) : Prop :=
  ∃ c vm,
    (c ∈ Spec_Template_Spec_Containers d ∨ c ∈ Spec_Template_Spec_InitContainers d)
    ∧ vm ∈ elems (Container_VolumeMounts c) ∧ VolumeMount_Name vm ∈ volumeNamesToRemove.

(** The removal mutator as the specification words it: it always returns,
    no volume and no mount of those names is left, [changed] is true exactly
    when there was such a volume or mount, and a second run on the result
    returns [changed = false]. *)
Definition RemoveTLS_as_specified : Prop :=
  ∀ desired existing,
    ∃ existing' changed,
      DeploymentRemoveTLSVolumesAndMountsMutator desired existing
      = Returned existing' changed None
      ∧ ¬ has_TLS_volume existing' ∧ ¬ has_TLS_mount existing'
      ∧ (changed = true ↔ has_TLS_volume existing ∨ has_TLS_mount existing)
      ∧ ∃ existing'',
          DeploymentRemoveTLSVolumesAndMountsMutator desired existing'
          = Returned existing'' false None.

(** Each of the names to remove names at most one element of [s]. *)
Definition at_most_once {A} (name_of : A → string) (names : list string) (s : list A)
    : Prop :=
  ∀ name, name ∈ names → length (filter (λ x, name_of x = name) s) ≤ 1.

Definition TLS_names_at_most_once (d : Deployment) : Prop :=
  at_most_once Volume_Name volumeNamesToRemove (elems (Spec_Template_Spec_Volumes d))
  ∧ ∀ c,
      c ∈ Spec_Template_Spec_Containers d ∨ c ∈ Spec_Template_Spec_InitContainers d →
      at_most_once VolumeMount_Name volumeNamesToRemove
        (elems (Container_VolumeMounts c)).

Definition without_TLS_volumes (volumes : list Volume) : list Volume :=
  filter (λ v, Volume_Name v ∉ volumeNamesToRemove) volumes.

Definition without_TLS_mounts (c : Container) : Container :=
  set_VolumeMounts
    (filter (λ vm, VolumeMount_Name vm ∉ volumeNamesToRemove) <$> Container_VolumeMounts c)
    c.

(** [existing] with its TLS volumes and all TLS mounts deleted. *)
Definition without_TLS (existing : Deployment) : Deployment :=
  set_InitContainers (without_TLS_mounts <$> Spec_Template_Spec_InitContainers existing)
    (set_Containers (without_TLS_mounts <$> Spec_Template_Spec_Containers existing)
       (set_Volumes
          (Some (without_TLS_volumes (elems (Spec_Template_Spec_Volumes existing))))
          existing)).

(** A mount of the TLS secret left without its volume. *)
Definition dangling_TLS_mount : Deployment :=
  sample_deployment (Some [{| Volume_Name := "data"; Volume_Source := "emptyDir" |}]) []
    [sample_container []
       [{| VolumeMount_Name := "tls-secret"; VolumeMount_MountPath := "/tls" |}]].

(** [quiet m]: when [m] returns [changed = false] and a nil error, it has
    left [existing] as it was. *)
Definition quiet (m : DMutateFn) : Prop :=
  ∀ desired existing existing',
    m desired existing = Returned existing' false None → existing' = existing.

(** [overlay upd ds es]: the containers [es] with [upd d] applied to the one
    at each index where [ds] has a container [d]; those beyond stay. *)
Fixpoint overlay (upd : Container → Container → Container) (ds es : list Container)
    : list Container :=
  match ds, es with
  | d :: ds', e :: es' => upd d e :: overlay upd ds' es'
  | _, _ => es
  end.

(** Some index holds a desired and an existing container that [differs]. *)
Definition differs_somewhere (differs : Container → Container → Prop)
    (ds es : list Container) : Prop :=
  ∃ i d e, ds !! i = Some d ∧ es !! i = Some e ∧ differs d e.

(** One of the two variables of the listener env mutators. *)
Definition listed (e : EnvVar) : Prop :=
  EnvVar_Name e = "LISTENER_WORKERS" ∨ EnvVar_Name e = "CONFIG_REDIS_ASYNC".

#[global] Instance listed_dec e : Decision (listed e).
Proof. unfold listed. apply _. Defined.

(** [settled_listener off env]: both variables are in [env] and no entry of
    either has the value [off]. *)
Definition settled_listener (off : string) (env : list EnvVar) : Prop :=
  "LISTENER_WORKERS" ∈ EnvVar_Name <$> env
  ∧ "CONFIG_REDIS_ASYNC" ∈ EnvVar_Name <$> env
  ∧ ∀ e, e ∈ env → listed e → EnvVar_Value e ≠ off.

(** [settled_worker off env]: CONFIG_REDIS_ASYNC is in [env] and no entry of
    that name has the value [off]. *)
Definition settled_worker (off : string) (env : list EnvVar) : Prop :=
  "CONFIG_REDIS_ASYNC" ∈ EnvVar_Name <$> env
  ∧ ∀ e, e ∈ env → EnvVar_Name e = "CONFIG_REDIS_ASYNC" → EnvVar_Value e ≠ off.

(** [overlay_append upd ds es]: as [overlay], and where [es] ends before [ds]
    the containers of [ds] from there on are appended as they are. *)
Fixpoint overlay_append (upd : Container → Container → Container)
    (ds es : list Container) : list Container :=
  match ds, es with
  | d :: ds', e :: es' => upd d e :: overlay_append upd ds' es'
  | _, [] => ds
  | [], _ => es
  end.

(** ** The pipeline *)

Lemma DeploymentMutator_loop_clean desired existing opts changes final update :
  runs_clean desired existing opts changes final →
  DeploymentMutator_loop opts desired existing update
  = Returned final (update || foldr orb false changes) None.
Proof.
  intros Hruns. revert update.
  induction Hruns as [existing|existing opt opts changed existing' changes final Hopt _ IH];
    intros update; simpl.
  - by rewrite orb_false_r.
  - rewrite Hopt, IH. by rewrite orb_assoc.
Qed.

Lemma DeploymentMutator_loop_error desired existing pre changes mid opt existing' changed
    err post update :
  runs_clean desired existing pre changes mid →
  opt desired mid = Returned existing' changed (Some err) →
  DeploymentMutator_loop (pre ++ opt :: post) desired existing update
  = Returned existing' false (Some err).
Proof.
  intros Hruns Hopt. revert update.
  induction Hruns as [existing|existing o opts c e1 changes final Ho _ IH];
    intros update; simpl.
  - by rewrite Hopt.
  - rewrite Ho. apply IH, Hopt.
Qed.

(** C1.  When the mutators [opts] all return a nil error, run in list order,
    the pipeline returns a nil error and the logical OR of their [changed]
    results; and when the mutator that follows them returns an error, the
    pipeline returns that very error, whatever mutators [post] come later in
    the list: none of those is executed. *)
Theorem DeploymentMutator_or_and_first_error desired existing opts changes final :
  runs_clean desired existing opts changes final →
  DeploymentMutator opts (ObjDeployment existing) (ObjDeployment desired)
  = Returned (ObjDeployment final) (foldr orb false changes) None
  ∧ ∀ opt existing' changed err post,
      opt desired final = Returned existing' changed (Some err) →
      DeploymentMutator (opts ++ opt :: post) (ObjDeployment existing)
        (ObjDeployment desired)
      = Returned (ObjDeployment existing') false (Some err).
Proof.
  intros Hruns. split.
  - unfold DeploymentMutator.
    by rewrite (DeploymentMutator_loop_clean _ _ _ _ _ false Hruns).
  - intros opt existing' changed err post Hopt. unfold DeploymentMutator.
    by rewrite (DeploymentMutator_loop_error _ _ _ _ _ _ _ _ _ post false Hruns Hopt).
Qed.

(** C5.  When the existing or the desired object is not a Deployment, the
    pipeline returns a non-nil error and [changed = false], leaves the
    existing object as it is, and does so for every list of mutators, those
    that would panic if called included. *)
Theorem DeploymentMutator_type_mismatch existingObj desiredObj :
  is_Deployment existingObj = false ∨ is_Deployment desiredObj = false →
  ∃ err, ∀ opts,
    DeploymentMutator opts existingObj desiredObj = Returned existingObj false (Some err).
Proof.
  intros [H|H].
  - destruct existingObj as [existing|t]; [done|]. by exists (ErrNotDeployment t).
  - destruct desiredObj as [desired|t]; [done|].
    destruct existingObj as [existing|t'].
    + by exists (ErrNotDeployment t).
    + by exists (ErrNotDeployment t').
Qed.

Lemma DeploymentMutator_or_and_first_error_witness :
  let desired := sample_deployment None [] [] in
  let existing := sample_deployment None [] [sample_container [] []] in
  let opts := [DeploymentPriorityClassMutator; DeploymentListenerArgsMutator] in
  let final :=
    sample_deployment None [] [set_Args (Some falconArgs) (sample_container [] [])] in
  runs_clean desired existing opts [false; true] final
  ∧ DeploymentMutator opts (ObjDeployment existing) (ObjDeployment desired)
    = Returned (ObjDeployment final) true None
  ∧ DeploymentMutator
      (opts ++ DeploymentContainerResourcesMutator sample_ObjectInfo sample_CmpResources
            :: [unreachable_mutator])
      (ObjDeployment existing) (ObjDeployment desired)
    = Returned (ObjDeployment final) false
        (Some (ErrDesiredContainersLength "backend-listener" 0)).
Proof.
  intros desired existing opts final.
  assert (Hruns : runs_clean desired existing opts [false; true] final).
  { eapply runs_clean_cons; [reflexivity|].
    eapply runs_clean_cons; [reflexivity|]. apply runs_clean_nil. }
  destruct (DeploymentMutator_or_and_first_error desired existing opts [false; true]
              final Hruns) as [Hor Herr].
  split; [exact Hruns|]. split; [exact Hor|].
  apply (Herr _ final false). reflexivity.
Defined.

Lemma DeploymentMutator_type_mismatch_witness :
  ∃ err, ∀ opts,
    DeploymentMutator opts (ObjOther "*v1.ServiceAccount")
      (ObjDeployment (sample_deployment None [] []))
    = Returned (ObjOther "*v1.ServiceAccount") false (Some err).
Proof.
  apply DeploymentMutator_type_mismatch. left. reflexivity.
Defined.

(** ** Mutators over the helpers *)

Section HelperFacts.

Variable ObjectInfo : Deployment → string.
Variable CmpResources : ResourceRequirements → ResourceRequirements → bool.
Variable EnvVarReconciler :
  option (list EnvVar) → option (list EnvVar) → string → option (list EnvVar) * bool.

Lemma set_Resources_same c : set_Resources (Container_Resources c) c = c.
Proof. by destruct c. Qed.

(** C3.  When desired and existing differ in their number of containers, or
    in their number of init containers, [DeploymentEnvVarReconciler] returns
    [false] and leaves existing as it is; it does not panic, and it has no
    error result. *)
Theorem DeploymentEnvVarReconciler_shape_mismatch desired existing envVar :
  length (Spec_Template_Spec_Containers desired)
    ≠ length (Spec_Template_Spec_Containers existing)
  ∨ length (Spec_Template_Spec_InitContainers desired)
    ≠ length (Spec_Template_Spec_InitContainers existing) →
  DeploymentEnvVarReconciler EnvVarReconciler desired existing envVar
  = Some (existing, false).
Proof.
  intros Hshape. unfold DeploymentEnvVarReconciler.
  destruct (decide (length (Spec_Template_Spec_Containers desired)
                    ≠ length (Spec_Template_Spec_Containers existing))); [done|].
  destruct (decide (length (Spec_Template_Spec_InitContainers desired)
                    ≠ length (Spec_Template_Spec_InitContainers existing))); [done|].
  by destruct Hshape.
Qed.

(** C4.  [DeploymentContainerResourcesMutator]: when desired does not have
    exactly one container, it returns an error and existing is as it was;
    when desired has exactly one container [d0] and existing has not, the
    container list of existing becomes that of desired and [changed] is
    true; when both have exactly one, [d0] and [e0], existing is left alone
    with [changed = false] if [helper.CmpResources] finds the resources of
    [e0] and [d0] equal, and otherwise only the resources of [e0] are
    replaced by those of [d0], with [changed = true]. *)
Theorem DeploymentContainerResourcesMutator_cases desired existing :
  (length (Spec_Template_Spec_Containers desired) ≠ 1 →
   ∃ err,
     DeploymentContainerResourcesMutator ObjectInfo CmpResources desired existing
     = Returned existing false (Some err))
  ∧ (∀ d0,
       Spec_Template_Spec_Containers desired = [d0] →
       length (Spec_Template_Spec_Containers existing) ≠ 1 →
       DeploymentContainerResourcesMutator ObjectInfo CmpResources desired existing
       = Returned (set_Containers [d0] existing) true None)
  ∧ (∀ d0 e0,
       Spec_Template_Spec_Containers desired = [d0] →
       Spec_Template_Spec_Containers existing = [e0] →
       DeploymentContainerResourcesMutator ObjectInfo CmpResources desired existing
       = if CmpResources (Container_Resources e0) (Container_Resources d0) then
           Returned existing false None
         else
           Returned
             (set_Containers [set_Resources (Container_Resources d0) e0] existing)
             true None).
Proof.
  unfold DeploymentContainerResourcesMutator. repeat split.
  - intros Hlen. rewrite decide_True by done. eauto.
  - intros d0 Hd He. rewrite Hd. simpl.
    destruct (decide (length (Spec_Template_Spec_Containers existing) ≠ 1)) as [_|Hn];
      [|by destruct Hn].
    simpl. destruct (CmpResources _ _); simpl; [done|].
    by rewrite set_Resources_same.
  - intros d0 e0 Hd He. rewrite Hd, He. simpl. rewrite He. simpl.
    by destruct (CmpResources _ _).
Qed.

End HelperFacts.

Lemma DeploymentEnvVarReconciler_shape_mismatch_witness :
  DeploymentEnvVarReconciler sample_EnvVarReconciler
    (sample_deployment None [] [sample_container [] []; sample_container [] []])
    (sample_deployment None [] [sample_container [] []]) "CONFIG_REDIS_ASYNC"
  = Some (sample_deployment None [] [sample_container [] []], false).
Proof.
  apply DeploymentEnvVarReconciler_shape_mismatch. left. simpl. lia.
Defined.

Lemma DeploymentContainerResourcesMutator_cases_witness :
  let two := [sample_container [] []; sample_container [] []] in
  let one := sample_container [] [] in
  let other :=
    set_Resources {| Limits := Some {["cpu" := 1000%Z]}; Requests := None |} one in
  (∃ err,
     DeploymentContainerResourcesMutator sample_ObjectInfo sample_CmpResources
       (sample_deployment None [] two) (sample_deployment None [] [one])
     = Returned (sample_deployment None [] [one]) false (Some err))
  ∧ DeploymentContainerResourcesMutator sample_ObjectInfo sample_CmpResources
      (sample_deployment None [] [other]) (sample_deployment None [] two)
    = Returned (sample_deployment None [] [other]) true None
  ∧ DeploymentContainerResourcesMutator sample_ObjectInfo sample_CmpResources
      (sample_deployment None [] [other]) (sample_deployment None [] [one])
    = Returned (sample_deployment None [] [other]) true None.
Proof.
  intros two one other. split; [|split].
  - destruct (DeploymentContainerResourcesMutator_cases sample_ObjectInfo
                sample_CmpResources (sample_deployment None [] two)
                (sample_deployment None [] [one])) as (Herr & _ & _).
    apply Herr. simpl. lia.
  - destruct (DeploymentContainerResourcesMutator_cases sample_ObjectInfo
                sample_CmpResources (sample_deployment None [] [other])
                (sample_deployment None [] two)) as (_ & Hrecreate & _).
    apply (Hrecreate other); [reflexivity|simpl; lia].
  - destruct (DeploymentContainerResourcesMutator_cases sample_ObjectInfo
                sample_CmpResources (sample_deployment None [] [other])
                (sample_deployment None [] [one])) as (_ & _ & Hone).
    apply (Hone other one); reflexivity.
Defined.

(** ** Listener env mutators called twice *)

(** C2.  The two listener env mutators are not idempotent.  On a container
    without environment [DeploymentListenerAsyncDisableEnvMutator] reports a
    change, and reports one again on its own result, which it leaves as it
    is.  On [LISTENER_WORKERS=0, CONFIG_REDIS_ASYNC=0]
    [DeploymentListenerEnvMutator] returns after the first variable, and the
    second call changes the second variable and reports a change too. *)
Theorem listener_env_mutators_change_on_second_call desired :
  DeploymentListenerAsyncDisableEnvMutator desired (listener [])
  = Returned (listener [CONFIG_REDIS_ASYNC "0"]) true None
  ∧ DeploymentListenerAsyncDisableEnvMutator desired (listener [CONFIG_REDIS_ASYNC "0"])
    = Returned (listener [CONFIG_REDIS_ASYNC "0"]) true None
  ∧ DeploymentListenerEnvMutator desired
      (listener [LISTENER_WORKERS "0"; CONFIG_REDIS_ASYNC "0"])
    = Returned (listener [LISTENER_WORKERS "1"; CONFIG_REDIS_ASYNC "0"]) true None
  ∧ DeploymentListenerEnvMutator desired
      (listener [LISTENER_WORKERS "1"; CONFIG_REDIS_ASYNC "0"])
    = Returned (listener [LISTENER_WORKERS "1"; CONFIG_REDIS_ASYNC "1"]) true None.
Proof. repeat split. Qed.

(** ** Map merge *)

Lemma MergeMapStringString_union modified (existing desired : gmap string string) :
  (MergeMapStringString modified existing desired).2 = desired ∪ existing.
Proof.
  unfold MergeMapStringString. simpl.
  apply (map_fold_weak_ind (λ r m, r = m ∪ existing)).
  - by rewrite (left_id_L ∅ (∪)).
  - intros key value m r _ ->. by rewrite insert_union_l.
Qed.


Lemma MergeMapStringString_spec (existing desired : gmap string string) :
  merged_as_specified existing desired
    (MergeMapStringString false existing desired).2
    (MergeMapStringString false existing desired).1.
Proof.
  split; [|split].
  - intros key value Hkey. rewrite MergeMapStringString_union.
    by apply lookup_union_Some_l.
  - intros key Hkey. rewrite MergeMapStringString_union.
    by apply lookup_union_r.
  - unfold MergeMapStringString. simpl. by case_decide.
Qed.

(** C8.  Each of the three map-merge mutators returns a nil error and leaves
    existing with nothing but the map in question changed; the new map has
    the value of desired on every key of desired, the old value on every key
    that only existing had, and [changed] is true exactly when the new map
    differs from the old one. *)
Theorem map_merge_mutators desired existing :
  (∃ merged changed,
     DeploymentAnnotationsMutator desired existing
     = Returned (set_ObjectMeta_Annotations merged existing) changed None
     ∧ merged_as_specified (ObjectMeta_Annotations existing)
         (ObjectMeta_Annotations desired) merged changed)
  ∧ (∃ merged changed,
       DeploymentPodTemplateAnnotationsMutator desired existing
       = Returned (set_Template_Annotations merged existing) changed None
       ∧ merged_as_specified (Spec_Template_Annotations existing)
           (Spec_Template_Annotations desired) merged changed)
  ∧ (∃ merged changed,
       DeploymentPodTemplateLabelsMutator desired existing
       = Returned (set_Template_Labels merged existing) changed None
       ∧ merged_as_specified (Spec_Template_Labels existing)
           (Spec_Template_Labels desired) merged changed).
Proof.
  split; [|split].
  - exists (MergeMapStringString false (ObjectMeta_Annotations existing)
              (ObjectMeta_Annotations desired)).2,
           (MergeMapStringString false (ObjectMeta_Annotations existing)
              (ObjectMeta_Annotations desired)).1.
    split; [done|apply MergeMapStringString_spec].
  - exists (MergeMapStringString false (Spec_Template_Annotations existing)
              (Spec_Template_Annotations desired)).2,
           (MergeMapStringString false (Spec_Template_Annotations existing)
              (Spec_Template_Annotations desired)).1.
    split; [done|apply MergeMapStringString_spec].
  - exists (MergeMapStringString false (Spec_Template_Labels existing)
              (Spec_Template_Labels desired)).2,
           (MergeMapStringString false (Spec_Template_Labels existing)
              (Spec_Template_Labels desired)).1.
    split; [done|apply MergeMapStringString_spec].
Qed.

(** ** Init-container full sync *)

Lemma insert_at_length {A} (p t : list A) (e d : A) :
  <[length p := d]> (p ++ e :: t) = p ++ d :: t.
Proof.
  replace (length p) with (length p + 0) by lia. by rewrite insert_app_r.
Qed.

(** The loop from index [length p] on, over the init containers [rest] of
    desired that are left, when existing holds [p], already equal to
    desired, and then [t]. *)
Lemma PodInitContainerMutator_loop rest :
  ∀ (p t : list Container) (updated : bool),
    length t ≤ length rest →
    ∃ updated',
      for_range (length p) rest PodInitContainerMutator_at (p ++ t, updated)
      = Some (p ++ rest, updated')
      ∧ (updated' = true ↔ updated = true ∨ t ≠ rest).
Proof.
  induction rest as [|d rest IH]; intros p t updated Hlen.
  - destruct t as [|e t]; [|simpl in Hlen; lia].
    exists updated. simpl. split; [done|]. naive_solver.
  - simpl. unfold PodInitContainerMutator_at at 1.
    destruct t as [|e t].
    + rewrite decide_True by (rewrite app_nil_r; lia).
      rewrite app_nil_r.
      destruct (IH (p ++ [d]) [] true) as (updated' & Hloop & Hupd);
        [simpl; lia|].
      rewrite length_app, Nat.add_1_r, app_nil_r in Hloop.
      rewrite <- app_assoc in Hloop. simpl in Hloop.
      exists updated'. split; [done|]. naive_solver.
    + rewrite decide_False by (rewrite length_app; simpl; lia).
      rewrite list_lookup_middle by done.
      destruct (decide (e ≠ d)) as [Hne|Heq].
      * rewrite insert_at_length.
        destruct (IH (p ++ [d]) t true) as (updated' & Hloop & Hupd);
          [simpl in Hlen; lia|].
        rewrite length_app, Nat.add_1_r in Hloop.
        rewrite <- !app_assoc in Hloop. simpl in Hloop.
        exists updated'. split; [done|]. naive_solver.
      * apply dec_stable in Heq. subst e.
        destruct (IH (p ++ [d]) t updated) as (updated' & Hloop & Hupd);
          [simpl in Hlen; lia|].
        rewrite length_app, Nat.add_1_r in Hloop.
        rewrite <- !app_assoc in Hloop. simpl in Hloop.
        exists updated'. split; [done|]. rewrite Hupd. naive_solver.
Qed.

(** C9.  After [DeploymentPodInitContainerMutator] the init containers of
    existing are those of desired, nothing else of existing has changed, the
    error is nil, and [changed] is true exactly when the two lists differed
    before the call.  The lists are the sequences of init containers, and
    two containers are the same when [reflect.DeepEqual] finds them so: one
    with nil args, env or mounts is not one with empty ones. *)
Theorem DeploymentPodInitContainerMutator_exact desired existing :
  ∃ changed,
    DeploymentPodInitContainerMutator desired existing
    = Returned (set_InitContainers (Spec_Template_Spec_InitContainers desired) existing)
        changed None
    ∧ (changed = true
       ↔ Spec_Template_Spec_InitContainers existing
         ≠ Spec_Template_Spec_InitContainers desired).
Proof.
  unfold DeploymentPodInitContainerMutator.
  set (ds := Spec_Template_Spec_InitContainers desired).
  set (es := Spec_Template_Spec_InitContainers existing).
  destruct (decide (length ds < length es)) as [Hlt|Hge].
  - destruct (PodInitContainerMutator_loop ds [] (take (length ds) es) true)
      as (changed & Hloop & Hchanged).
    { rewrite length_take. lia. }
    simpl in Hloop. rewrite Hloop. exists changed. split; [done|].
    split; [|naive_solver].
    intros _ Heq. rewrite Heq in Hlt. lia.
  - destruct (PodInitContainerMutator_loop ds [] es false)
      as (changed & Hloop & Hchanged); [lia|].
    simpl in Hloop. rewrite Hloop. exists changed. split; [done|].
    rewrite Hchanged. naive_solver.
Qed.

(** ** Indexing without bounds checks *)

Section IndexedLoop.

(** A loop body that indexes a slice of [m] containers, keeps its length,
    and panics exactly from index [n] on. *)
Context {A : Type}.
Variable body : nat → A → list Container * bool → option (list Container * bool).
Variables m n : nat.
Hypothesis body_None :
  ∀ i x containers updated,
    length containers = m → body i x (containers, updated) = None ↔ n ≤ i.
Hypothesis body_length :
  ∀ i x containers updated containers' updated',
    body i x (containers, updated) = Some (containers', updated') →
    length containers' = length containers.

Lemma for_range_length l :
  ∀ i containers updated containers' updated',
    for_range i l body (containers, updated) = Some (containers', updated') →
    length containers' = length containers.
Proof.
  induction l as [|x l IH]; intros i cs u cs' u' Hloop; simpl in Hloop.
  - by inversion Hloop.
  - destruct (body i x (cs, u)) as [[cs1 u1]|] eqn:Hbody; [|done].
    rewrite (IH _ _ _ _ _ Hloop). by eapply body_length.
Qed.

Lemma for_range_panics l :
  ∀ i containers updated,
    length containers = m → i ≤ n →
    for_range i l body (containers, updated) = None ↔ n < i + length l.
Proof.
  induction l as [|x l IH]; intros i cs u Hm Hi; simpl.
  - split; [done|lia].
  - destruct (body i x (cs, u)) as [[cs1 u1]|] eqn:Hbody.
    + assert (¬ n ≤ i) as Hn.
      { intros Hle. apply (body_None i x cs u Hm) in Hle. congruence. }
      rewrite IH; [lia| |lia].
      by rewrite (body_length _ _ _ _ _ _ Hbody).
    + apply (body_None i x cs u Hm) in Hbody. split; [lia|done].
Qed.

End IndexedLoop.

Lemma ArgsMutator_at_None m i x containers updated :
  length containers = m → ArgsMutator_at i x (containers, updated) = None ↔ m ≤ i.
Proof.
  intros <-. unfold ArgsMutator_at.
  destruct (containers !! i) as [e|] eqn:Hi.
  - apply lookup_lt_Some in Hi. split; [by case_decide|lia].
  - by apply lookup_ge_None in Hi.
Qed.

Lemma ArgsMutator_at_length i x containers updated containers' updated' :
  ArgsMutator_at i x (containers, updated) = Some (containers', updated') →
  length containers' = length containers.
Proof.
  unfold ArgsMutator_at. destruct (containers !! i); [|done].
  case_decide; intros [= <- _]; [apply length_insert|done].
Qed.

Lemma ProbesMutator_at_None m i x containers updated :
  length containers = m → ProbesMutator_at i x (containers, updated) = None ↔ m ≤ i.
Proof.
  intros <-. unfold ProbesMutator_at.
  destruct (containers !! i) as [e|] eqn:Hi.
  - apply lookup_lt_Some in Hi. split; [by repeat case_decide|lia].
  - by apply lookup_ge_None in Hi.
Qed.

Lemma ProbesMutator_at_length i x containers updated containers' updated' :
  ProbesMutator_at i x (containers, updated) = Some (containers', updated') →
  length containers' = length containers.
Proof.
  unfold ProbesMutator_at. destruct (containers !! i); [|done].
  repeat case_decide; intros [= <- _]; apply length_insert.
Qed.

Lemma syncVolumeMounts_at_None desiredContainers m i x containers changed :
  length containers = m →
  syncVolumeMounts_at desiredContainers i x (containers, changed) = None
  ↔ m `min` length desiredContainers ≤ i.
Proof.
  intros <-. unfold syncVolumeMounts_at.
  destruct (containers !! i) as [e|] eqn:He.
  - apply lookup_lt_Some in He.
    destruct (desiredContainers !! i) as [d|] eqn:Hd.
    + apply lookup_lt_Some in Hd.
      destruct (syncVolumeMounts _ _) as [[|] new]; split; (done || lia).
    + apply lookup_ge_None in Hd. split; [lia|done].
  - apply lookup_ge_None in He. split; [lia|done].
Qed.

Lemma syncVolumeMounts_at_length desiredContainers i x containers changed
    containers' changed' :
  syncVolumeMounts_at desiredContainers i x (containers, changed)
  = Some (containers', changed') →
  length containers' = length containers.
Proof.
  unfold syncVolumeMounts_at.
  destruct (containers !! i); [|done]. destruct (desiredContainers !! i); [|done].
  destruct (syncVolumeMounts _ _) as [[|] new]; intros [= <- _];
    [apply length_insert|done].
Qed.

Lemma syncVolumeMounts_loop_panics desiredContainers containers changed :
  for_range 0 containers (syncVolumeMounts_at desiredContainers) (containers, changed)
  = None
  ↔ length desiredContainers < length containers.
Proof.
  rewrite (for_range_panics (syncVolumeMounts_at desiredContainers) (length containers)
             (length containers `min` length desiredContainers)); [lia| | |done|lia].
  - intros i x cs u. apply syncVolumeMounts_at_None.
  - intros i x cs u cs' u'. apply syncVolumeMounts_at_length.
Qed.

Lemma DeploymentArgsMutator_panics desired existing :
  DeploymentArgsMutator desired existing = Panicked
  ↔ length (Spec_Template_Spec_Containers existing)
    < length (Spec_Template_Spec_Containers desired).
Proof.
  unfold DeploymentArgsMutator.
  rewrite <- (for_range_panics ArgsMutator_at
                (length (Spec_Template_Spec_Containers existing))
                (length (Spec_Template_Spec_Containers existing))
                (ArgsMutator_at_None _) ArgsMutator_at_length
                (Spec_Template_Spec_Containers desired) 0
                (Spec_Template_Spec_Containers existing) false eq_refl (Nat.le_0_l _)).
  by destruct (for_range _ _ _ _) as [[cs u]|].
Qed.

Lemma DeploymentProbesMutator_panics desired existing :
  DeploymentProbesMutator desired existing = Panicked
  ↔ length (Spec_Template_Spec_Containers existing)
    < length (Spec_Template_Spec_Containers desired).
Proof.
  unfold DeploymentProbesMutator.
  rewrite <- (for_range_panics ProbesMutator_at
                (length (Spec_Template_Spec_Containers existing))
                (length (Spec_Template_Spec_Containers existing))
                (ProbesMutator_at_None _) ProbesMutator_at_length
                (Spec_Template_Spec_Containers desired) 0
                (Spec_Template_Spec_Containers existing) false eq_refl (Nat.le_0_l _)).
  by destruct (for_range _ _ _ _) as [[cs u]|].
Qed.

Lemma DeploymentListenerArgsMutator_panics desired existing :
  DeploymentListenerArgsMutator desired existing = Panicked
  ↔ Spec_Template_Spec_Containers existing = [].
Proof.
  unfold DeploymentListenerArgsMutator.
  destruct (Spec_Template_Spec_Containers existing) as [|c0 cs]; simpl; [done|].
  by case_decide.
Qed.

Lemma DeploymentSyncVolumesAndMountsMutator_panics desired existing :
  DeploymentSyncVolumesAndMountsMutator desired existing = Panicked
  ↔ length (Spec_Template_Spec_Containers desired)
    < length (Spec_Template_Spec_Containers existing)
    ∨ length (Spec_Template_Spec_InitContainers desired)
      < length (Spec_Template_Spec_InitContainers existing).
Proof.
  unfold DeploymentSyncVolumesAndMountsMutator.
  destruct (addMissingVolumes _ _ _) as [volumes changed].
  rewrite <- (syncVolumeMounts_loop_panics (Spec_Template_Spec_Containers desired)
                (Spec_Template_Spec_Containers existing) changed).
  destruct (for_range 0 (Spec_Template_Spec_Containers existing) _ _)
    as [[containers changed1]|]; [|by split; [left|]].
  rewrite <- (syncVolumeMounts_loop_panics (Spec_Template_Spec_InitContainers desired)
                (Spec_Template_Spec_InitContainers existing) changed1).
  destruct (for_range 0 (Spec_Template_Spec_InitContainers existing) _ _)
    as [[initContainers changed2]|]; [|by split; [right|]].
  split; [done|]. by intros [|].
Qed.

Lemma unchecked_mutators_no_error (mutator : DMutateFn) desired existing existing'
    changed err :
  mutator ∈ [DeploymentArgsMutator; DeploymentProbesMutator;
             DeploymentListenerArgsMutator; DeploymentSyncVolumesAndMountsMutator] →
  mutator desired existing = Returned existing' changed err → err = None.
Proof.
  rewrite !elem_of_cons, elem_of_nil.
  intros [->|[->|[->|[->|[]]]]].
  - unfold DeploymentArgsMutator.
    destruct (for_range _ _ _ _) as [[cs u]|]; [|done]. by intros [= _ _ <-].
  - unfold DeploymentProbesMutator.
    destruct (for_range _ _ _ _) as [[cs u]|]; [|done]. by intros [= _ _ <-].
  - unfold DeploymentListenerArgsMutator.
    destruct (_ !! 0); [|done]. by case_decide; intros [= _ _ <-].
  - unfold DeploymentSyncVolumesAndMountsMutator.
    destruct (addMissingVolumes _ _ _) as [volumes changed0].
    destruct (for_range _ _ _ _) as [[cs u]|]; [|done].
    destruct (for_range _ _ _ _) as [[ics u']|]; [|done]. by intros [= _ _ <-].
Qed.

(** C10.  [DeploymentArgsMutator] and [DeploymentProbesMutator] panic exactly
    when existing has fewer containers than desired,
    [DeploymentListenerArgsMutator] exactly when existing has no container,
    and [DeploymentSyncVolumesAndMountsMutator] exactly when desired has
    fewer containers, or fewer init containers, than existing; and whenever
    one of the four returns, its error is nil: a violated shape is never
    reported as an error. *)
Theorem unchecked_container_indexing desired existing :
  (DeploymentArgsMutator desired existing = Panicked
   ↔ length (Spec_Template_Spec_Containers existing)
     < length (Spec_Template_Spec_Containers desired))
  ∧ (DeploymentProbesMutator desired existing = Panicked
     ↔ length (Spec_Template_Spec_Containers existing)
       < length (Spec_Template_Spec_Containers desired))
  ∧ (DeploymentListenerArgsMutator desired existing = Panicked
     ↔ Spec_Template_Spec_Containers existing = [])
  ∧ (DeploymentSyncVolumesAndMountsMutator desired existing = Panicked
     ↔ length (Spec_Template_Spec_Containers desired)
       < length (Spec_Template_Spec_Containers existing)
       ∨ length (Spec_Template_Spec_InitContainers desired)
         < length (Spec_Template_Spec_InitContainers existing))
  ∧ (∀ (mutator : DMutateFn) existing' changed err,
       mutator ∈ [DeploymentArgsMutator; DeploymentProbesMutator;
                  DeploymentListenerArgsMutator;
                  DeploymentSyncVolumesAndMountsMutator] →
       mutator desired existing = Returned existing' changed err → err = None).
Proof.
  split; [apply DeploymentArgsMutator_panics|].
  split; [apply DeploymentProbesMutator_panics|].
  split; [apply DeploymentListenerArgsMutator_panics|].
  split; [apply DeploymentSyncVolumesAndMountsMutator_panics|].
  intros mutator existing' changed err. apply unchecked_mutators_no_error.
Qed.

(** ** Additive volume and volume-mount sync *)

Lemma volumeExists_spec volumes name :
  volumeExists volumes name = true ↔ name ∈ Volume_Name <$> volumes.
Proof.
  induction volumes as [|v volumes IH]; simpl.
  - rewrite elem_of_nil. naive_solver.
  - rewrite elem_of_cons. case_decide; naive_solver.
Qed.

Lemma volumeMountExists_spec volumeMounts name :
  volumeMountExists volumeMounts name = true ↔ name ∈ VolumeMount_Name <$> volumeMounts.
Proof.
  induction volumeMounts as [|vm volumeMounts IH]; simpl.
  - rewrite elem_of_nil. naive_solver.
  - rewrite elem_of_cons. case_decide; naive_solver.
Qed.

Lemma addMissingVolumes_spec desiredVolumes :
  ∀ volumes changed,
    volumes ⊆ (addMissingVolumes desiredVolumes volumes changed).1
    ∧ Volume_Name <$> desiredVolumes
      ⊆ Volume_Name <$> (addMissingVolumes desiredVolumes volumes changed).1.
Proof.
  induction desiredVolumes as [|d ds IH]; intros volumes changed; simpl.
  - split; [done|]. intros name Hname. by apply elem_of_nil in Hname.
  - destruct (volumeExists volumes (Volume_Name d)) eqn:Hexists; simpl.
    + destruct (IH volumes changed) as [Hkeep Hadd]. split; [done|].
      intros name [->|Hname]%elem_of_cons; [|by apply Hadd].
      apply volumeExists_spec in Hexists.
      apply list_elem_of_fmap in Hexists as (v & -> & Hv).
      apply list_elem_of_fmap. exists v. split; [done|]. by apply Hkeep.
    + destruct (IH (volumes ++ [d]) true) as [Hkeep Hadd]. split.
      * intros v Hv. apply Hkeep. apply elem_of_app. by left.
      * intros name [->|Hname]%elem_of_cons; [|by apply Hadd].
        apply list_elem_of_fmap. exists d. split; [done|].
        apply Hkeep. apply elem_of_app. right. by apply list_elem_of_singleton.
Qed.

Lemma syncVolumeMounts_loop_spec existingMounts desiredMounts :
  ∀ changed newVolumeMounts,
    let r := syncVolumeMounts_loop existingMounts desiredMounts changed newVolumeMounts in
    elems newVolumeMounts ⊆ elems r.2
    ∧ (∀ name, name ∈ VolumeMount_Name <$> desiredMounts →
         name ∈ VolumeMount_Name <$> existingMounts
         ∨ name ∈ VolumeMount_Name <$> elems r.2)
    ∧ (r.1 = false → r.2 = newVolumeMounts).
Proof.
  induction desiredMounts as [|d ds IH]; intros changed new; simpl.
  - split; [done|]. split; [|done]. intros name Hname. by apply elem_of_nil in Hname.
  - destruct (volumeMountExists existingMounts (VolumeMount_Name d)) eqn:Hexists; simpl.
    + destruct (IH changed new) as (Hkeep & Hadd & Hsame). split; [done|]. split; [|done].
      intros name [->|Hname]%elem_of_cons; [|by apply Hadd].
      left. by apply volumeMountExists_spec.
    + destruct (IH true (append new d)) as (Hkeep & Hadd & Hsame). split; [|split].
      * intros vm Hvm. apply Hkeep. apply elem_of_app. by left.
      * intros name [->|Hname]%elem_of_cons; [|by apply Hadd].
        right. apply list_elem_of_fmap. exists d. split; [done|].
        apply Hkeep. apply elem_of_app. right. by apply list_elem_of_singleton.
      * intros Hfalse. exfalso. revert Hfalse. clear.
        generalize (append new d). induction ds as [|d' ds IHds]; intros acc; simpl; [done|].
        destruct (negb _); apply IHds.
Qed.

Lemma fmap_subseteq_names {A} (f : A → string) (l1 l2 : list A) :
  l1 ⊆ l2 → f <$> l1 ⊆ f <$> l2.
Proof.
  intros Hsub name (x & -> & Hx)%list_elem_of_fmap.
  apply list_elem_of_fmap. exists x. split; [done|]. by apply Hsub.
Qed.

Lemma syncVolumeMounts_spec existingMounts desiredMounts :
  let r := syncVolumeMounts existingMounts desiredMounts in
  elems existingMounts ⊆ elems r.2
  ∧ VolumeMount_Name <$> elems desiredMounts ⊆ VolumeMount_Name <$> elems r.2
  ∧ (r.1 = false → r.2 = existingMounts).
Proof.
  unfold syncVolumeMounts.
  destruct (syncVolumeMounts_loop_spec (elems existingMounts) (elems desiredMounts) false
              existingMounts) as (Hkeep & Hadd & Hsame).
  split; [done|]. split; [|done].
  intros name Hname. destruct (Hadd name Hname) as [Hold|Hnew]; [|done].
  by apply (fmap_subseteq_names _ _ _ Hkeep).
Qed.

Lemma syncVolumeMounts_at_spec desiredContainers i x containers changed
    containers' changed' :
  syncVolumeMounts_at desiredContainers i x (containers, changed)
  = Some (containers', changed') →
  ∃ e d e',
    containers !! i = Some e ∧ desiredContainers !! i = Some d
    ∧ containers' = <[i := e']> containers
    ∧ mount_names e ⊆ mount_names e' ∧ mount_names d ⊆ mount_names e'.
Proof.
  unfold syncVolumeMounts_at.
  destruct (containers !! i) as [e|] eqn:He; [|done].
  destruct (desiredContainers !! i) as [d|] eqn:Hd; [|done].
  destruct (syncVolumeMounts_spec (Container_VolumeMounts e) (Container_VolumeMounts d))
    as (Hkeep & Hadd & Hsame).
  destruct (syncVolumeMounts _ _) as [[|] new]; simpl in *; intros [= <- _].
  - exists e, d, (set_VolumeMounts new e). repeat split; try done.
    by apply fmap_subseteq_names.
  - exists e, d, e. rewrite list_insert_id by done. repeat split; try done.
    unfold mount_names. by rewrite <- (Hsame eq_refl).
Qed.

Lemma for_range_cons {A St} (body : nat → A → St → option St) i x l s :
  for_range i (x :: l) body s
  = match body i x s with
    | None => None
    | Some s' => for_range (S i) l body s'
    end.
Proof. done. Qed.

Lemma syncVolumeMounts_range_spec desiredContainers l :
  ∀ i containers changed containers' changed',
    for_range i l (syncVolumeMounts_at desiredContainers) (containers, changed)
    = Some (containers', changed') →
    ∀ j e, containers !! j = Some e →
      ∃ e', containers' !! j = Some e'
            ∧ mount_names e ⊆ mount_names e'
            ∧ (i ≤ j < i + length l →
               ∃ d, desiredContainers !! j = Some d ∧ mount_names d ⊆ mount_names e').
Proof.
  induction l as [|x l IH]; intros i cs ch cs' ch' Hloop j e Hj.
  - injection Hloop as <- <-. exists e. split; [done|]. split; [done|]. simpl. lia.
  - rewrite for_range_cons in Hloop.
    destruct (syncVolumeMounts_at desiredContainers i x (cs, ch)) as [[cs1 ch1]|] eqn:Hbody;
      [|done].
    apply syncVolumeMounts_at_spec in Hbody
      as (ei & di & ei' & Hei & Hdi & -> & Hkeep & Hadd).
    destruct (decide (j = i)) as [->|Hne].
    + assert (e = ei) as -> by congruence.
      destruct (IH _ _ _ _ _ Hloop i ei') as (e' & He' & Hkeep' & _).
      { apply list_lookup_insert_eq. by apply lookup_lt_Some in Hei. }
      exists e'. split; [done|]. split; [by etrans|].
      intros _. exists di. split; [done|]. by etrans.
    + destruct (IH _ _ _ _ _ Hloop j e) as (e' & He' & Hkeep' & Hin).
      { by rewrite list_lookup_insert_ne. }
      exists e'. split; [done|]. split; [done|].
      intros Hrange. apply Hin. simpl in Hrange. lia.
Qed.

Lemma syncVolumeMounts_range_additive desiredContainers containers changed
    containers' changed' :
  for_range 0 containers (syncVolumeMounts_at desiredContainers) (containers, changed)
  = Some (containers', changed') →
  mounts_additive desiredContainers containers containers'.
Proof.
  intros Hloop. split.
  - eapply for_range_length; [|exact Hloop].
    intros i x cs u cs' u'. apply syncVolumeMounts_at_length.
  - intros i e Hi.
    destruct (syncVolumeMounts_range_spec _ _ _ _ _ _ _ Hloop i e Hi)
      as (e' & He' & Hkeep & Hin).
    destruct Hin as (d & Hd & Hadd).
    { apply lookup_lt_Some in Hi. lia. }
    by exists e', d.
Qed.

(** C6.  Whenever [DeploymentSyncVolumesAndMountsMutator] returns, every
    volume name existing had is still there, every volume name of desired is
    there, and, for the containers and for the init containers alike,
    existing has as many of them as before and each has every mount name it
    had and every mount name of the desired one at its index. *)
Theorem DeploymentSyncVolumesAndMountsMutator_additive desired existing existing'
    changed err :
  DeploymentSyncVolumesAndMountsMutator desired existing = Returned existing' changed err →
  volume_names existing ⊆ volume_names existing'
  ∧ volume_names desired ⊆ volume_names existing'
  ∧ mounts_additive (Spec_Template_Spec_Containers desired)
      (Spec_Template_Spec_Containers existing) (Spec_Template_Spec_Containers existing')
  ∧ mounts_additive (Spec_Template_Spec_InitContainers desired)
      (Spec_Template_Spec_InitContainers existing)
      (Spec_Template_Spec_InitContainers existing').
Proof.
  unfold DeploymentSyncVolumesAndMountsMutator.
  set (volumes0 := match Spec_Template_Spec_Volumes existing with
                   | Some volumes => volumes
                   | None => []
                   end).
  destruct (addMissingVolumes_spec (elems (Spec_Template_Spec_Volumes desired))
              volumes0 false) as [Hkeep Hadd].
  destruct (addMissingVolumes _ _ _) as [volumes changed0]. simpl in Hkeep, Hadd.
  destruct (for_range 0 (Spec_Template_Spec_Containers existing) _ _)
    as [[containers changed1]|] eqn:Hcontainers; [|done].
  destruct (for_range 0 (Spec_Template_Spec_InitContainers existing) _ _)
    as [[initContainers changed2]|] eqn:HinitContainers; [|done].
  intros [= <- _ _]. simpl.
  split; [|split; [|split]].
  - unfold volume_names. simpl. by apply fmap_subseteq_names.
  - done.
  - by eapply syncVolumeMounts_range_additive.
  - by eapply syncVolumeMounts_range_additive.
Qed.

Lemma DeploymentSyncVolumesAndMountsMutator_additive_witness :
  let config := {| Volume_Name := "config"; Volume_Source := "configMap" |} in
  let data := {| Volume_Name := "data"; Volume_Source := "emptyDir" |} in
  let mount name := {| VolumeMount_Name := name; VolumeMount_MountPath := "/" +:+ name |} in
  let desired :=
    sample_deployment (Some [config]) [] [sample_container [] [mount "config"]] in
  let existing := sample_deployment (Some [data]) [] [sample_container [] [mount "data"]] in
  let existing' :=
    sample_deployment (Some [data; config]) []
      [sample_container [] [mount "data"; mount "config"]] in
  DeploymentSyncVolumesAndMountsMutator desired existing = Returned existing' true None
  ∧ volume_names existing ⊆ volume_names existing'
  ∧ volume_names desired ⊆ volume_names existing'
  ∧ mounts_additive (Spec_Template_Spec_Containers desired)
      (Spec_Template_Spec_Containers existing) (Spec_Template_Spec_Containers existing')
  ∧ mounts_additive (Spec_Template_Spec_InitContainers desired)
      (Spec_Template_Spec_InitContainers existing)
      (Spec_Template_Spec_InitContainers existing').
Proof.
  intros config data mount desired existing existing'.
  split; [reflexivity|].
  apply (DeploymentSyncVolumesAndMountsMutator_additive desired existing existing'
           true None).
  reflexivity.
Defined.

(** ** Removal of the TLS volumes and mounts *)

(** C7, as the specification words it, fails: with a mount named
    "tls-secret" and no volume of either name, the mutator returns
    [changed = false] and the mount stays. *)
Lemma RemoveTLS_as_specified_fails : ¬ RemoveTLS_as_specified.
Proof.
  intros Hspec.
  destruct (Hspec dangling_TLS_mount dangling_TLS_mount)
    as (existing' & changed & Hrun & _ & Hmounts & _).
  vm_compute in Hrun. injection Hrun as <- <-.
  apply Hmounts.
  exists (sample_container []
            [{| VolumeMount_Name := "tls-secret"; VolumeMount_MountPath := "/tls" |}]),
         {| VolumeMount_Name := "tls-secret"; VolumeMount_MountPath := "/tls" |}.
  split; [left; apply list_elem_of_here|].
  split; [apply list_elem_of_here|].
  apply list_elem_of_further, list_elem_of_here.
Qed.

Section RemoveFirstNamed.

Context {A : Type} (name_of : A → string).

Lemma removeFirstNamed_cons name x s :
  removeFirstNamed name_of name (x :: s)
  = if decide (name_of x = name) then (s, true)
    else (x :: (removeFirstNamed name_of name s).1,
          (removeFirstNamed name_of name s).2).
Proof.
  unfold removeFirstNamed. simpl. case_decide; [done|].
  by destruct (list_find _ s) as [[idx y]|].
Qed.

Lemma filter_other_names_id name (s : list A) :
  length (filter (λ x, name_of x = name) s) = 0 →
  filter (λ x, name_of x ≠ name) s = s.
Proof.
  induction s as [|x s IH]; [done|].
  rewrite !filter_cons. destruct (decide (name_of x = name)) as [Heq|Hne]; simpl.
  - lia.
  - intros Hlen. rewrite decide_True by done. by rewrite IH.
Qed.

(** With at most one element of that name, cutting out the first is
    deleting them all. *)
Lemma removeFirstNamed_filter name s :
  length (filter (λ x, name_of x = name) s) ≤ 1 →
  (removeFirstNamed name_of name s).1 = filter (λ x, name_of x ≠ name) s.
Proof.
  induction s as [|x s IH]; [done|].
  rewrite removeFirstNamed_cons, !filter_cons.
  destruct (decide (name_of x = name)) as [Heq|Hne]; simpl; intros Hlen.
  - rewrite decide_False by (intros Hne; by apply Hne).
    symmetry. apply filter_other_names_id. lia.
  - rewrite decide_True by done. by rewrite IH.
Qed.

Lemma removeFirstNamed_found name s :
  (removeFirstNamed name_of name s).2 = true ↔ ∃ x, x ∈ s ∧ name_of x = name.
Proof.
  induction s as [|x s IH].
  - split; [done|]. intros (x & Hx & _). by apply elem_of_nil in Hx.
  - rewrite removeFirstNamed_cons.
    destruct (decide (name_of x = name)) as [Heq|Hne]; simpl.
    + split; [|done]. intros _. exists x. split; [apply list_elem_of_here|done].
    + rewrite IH. split.
      * intros (y & Hy & Hname). exists y. split; [by apply list_elem_of_further|done].
      * intros (y & [->|Hy]%elem_of_cons & Hname); [done|]. by exists y.
Qed.

Lemma length_filter_filter (P Q : A → Prop) `{∀ x, Decision (P x)}
    `{∀ x, Decision (Q x)} (s : list A) :
  length (filter P (filter Q s)) ≤ length (filter P s).
Proof.
  induction s as [|x s IH]; [done|].
  rewrite !filter_cons.
  destruct (decide (Q x)); destruct (decide (P x)) eqn:HP; simpl;
    rewrite ?filter_cons, ?HP; simpl; lia.
Qed.

Lemma at_most_once_cons name names s :
  at_most_once name_of (name :: names) s →
  length (filter (λ x, name_of x = name) s) ≤ 1
  ∧ at_most_once name_of names (filter (λ x, name_of x ≠ name) s).
Proof.
  intros Honce. split; [apply Honce, list_elem_of_here|].
  intros name' Hname'. etrans; [apply length_filter_filter|].
  by apply Honce, list_elem_of_further.
Qed.

Lemma filter_not_in_cons name names (s : list A) :
  filter (λ x, name_of x ∉ names) (filter (λ x, name_of x ≠ name) s)
  = filter (λ x, name_of x ∉ name :: names) s.
Proof.
  induction s as [|x s IH]; [done|].
  rewrite !filter_cons.
  destruct (decide (name_of x ≠ name)) as [Hne|Heq].
  - rewrite filter_cons, IH.
    destruct (decide (name_of x ∉ names)) as [Hout|Hin].
    + rewrite decide_True; [done|]. rewrite not_elem_of_cons. done.
    + rewrite decide_False; [done|]. rewrite not_elem_of_cons. naive_solver.
  - rewrite IH. rewrite decide_False; [done|].
    rewrite not_elem_of_cons. naive_solver.
Qed.

Lemma filter_not_in_nil (s : list A) : filter (λ x, name_of x ∉ []) s = s.
Proof.
  induction s as [|x s IH]; [done|].
  rewrite filter_cons_True by apply not_elem_of_nil. by rewrite IH.
Qed.

End RemoveFirstNamed.

Lemma removeFirstNamed_absent {A} (name_of : A → string) name (s : list A) :
  (∀ x, x ∈ s → name_of x ≠ name) → removeFirstNamed name_of name s = (s, false).
Proof.
  induction s as [|x s IH]; intros Habsent; [done|].
  rewrite removeFirstNamed_cons.
  rewrite decide_False by apply Habsent, list_elem_of_here.
  rewrite IH; [done|]. intros y Hy. by apply Habsent, list_elem_of_further.
Qed.

Lemma removeFirstNamed_not_found {A} (name_of : A → string) name (s : list A) :
  (removeFirstNamed name_of name s).2 = false → (removeFirstNamed name_of name s).1 = s.
Proof. unfold removeFirstNamed. by destruct (list_find _ s) as [[idx x]|]. Qed.

Lemma removeVolumes_clean names :
  ∀ volumes volumeModified,
    (∀ v, v ∈ volumes → Volume_Name v ∉ names) →
    removeVolumes names volumes volumeModified = (volumes, volumeModified).
Proof.
  induction names as [|name names IH]; intros volumes modified Hclean; [done|].
  simpl. rewrite removeFirstNamed_absent.
  - apply IH. intros v Hv Hin. apply (Hclean v Hv). by apply list_elem_of_further.
  - intros v Hv Heq. apply (Hclean v Hv). rewrite Heq. apply list_elem_of_here.
Qed.

Lemma removeVolumes_filter names :
  ∀ volumes volumeModified,
    at_most_once Volume_Name names volumes →
    (removeVolumes names volumes volumeModified).1
    = filter (λ v, Volume_Name v ∉ names) volumes
    ∧ ((removeVolumes names volumes volumeModified).2 = true
       ↔ volumeModified = true ∨ ∃ v, v ∈ volumes ∧ Volume_Name v ∈ names).
Proof.
  induction names as [|name names IH]; intros volumes modified Honce.
  - simpl. rewrite filter_not_in_nil. split; [done|]. split; [by left|].
    intros [?|(v & _ & Hin)]; [done|]. by apply elem_of_nil in Hin.
  - apply at_most_once_cons in Honce as [Hone Hrest]. simpl.
    pose proof (removeFirstNamed_filter Volume_Name name volumes Hone) as Hcut.
    pose proof (removeFirstNamed_found Volume_Name name volumes) as Hfound.
    destruct (removeFirstNamed Volume_Name name volumes) as [volumes1 found].
    simpl in Hcut, Hfound. subst volumes1.
    destruct (IH _ (if found then true else modified) Hrest) as [Hlist Hflag].
    rewrite Hlist, Hflag, filter_not_in_cons. split; [done|]. split.
    + intros [Hmod|(v & Hv & Hin)].
      * destruct found; [|by left].
        right. destruct (proj1 Hfound eq_refl) as (v & Hv & Hname).
        exists v. split; [done|]. rewrite Hname. apply list_elem_of_here.
      * right. apply list_elem_of_filter in Hv as [_ Hv].
        exists v. split; [done|]. by apply list_elem_of_further.
    + intros [->|(v & Hv & [Hname|Hin]%elem_of_cons)].
      * left. by destruct found.
      * left. assert (found = true) as -> by (apply Hfound; by exists v). done.
      * destruct (decide (Volume_Name v = name)) as [Heq|Hne].
        -- left. assert (found = true) as -> by (apply Hfound; by exists v). done.
        -- right. exists v. split; [|done]. by apply list_elem_of_filter.
Qed.

Lemma removeMounts_filter names :
  ∀ volumeMounts,
    at_most_once VolumeMount_Name names (elems volumeMounts) →
    removeMounts names volumeMounts
    = filter (λ vm, VolumeMount_Name vm ∉ names) <$> volumeMounts.
Proof.
  induction names as [|name names IH]; intros volumeMounts Honce; simpl.
  - destruct volumeMounts as [mounts|]; [|done]. simpl. by rewrite filter_not_in_nil.
  - apply at_most_once_cons in Honce as [Hone Hrest].
    pose proof (removeFirstNamed_filter VolumeMount_Name name _ Hone) as Hcut.
    destruct volumeMounts as [mounts|]; cbn [elems default from_option id] in *.
    + pose proof (removeFirstNamed_not_found VolumeMount_Name name mounts) as Hsame.
      destruct (removeFirstNamed VolumeMount_Name name mounts) as [cut found].
      cbn [fst snd] in Hcut, Hsame. destruct found; cbn beta iota.
      * subst cut. rewrite IH by done. simpl. by rewrite filter_not_in_cons.
      * assert (filter (λ vm, VolumeMount_Name vm ≠ name) mounts = mounts) as Hid
          by (rewrite <- Hcut; by apply Hsame).
        rewrite Hid in Hrest. rewrite IH by done. simpl.
        by rewrite <- (filter_not_in_cons VolumeMount_Name name names mounts), Hid.
    + cbn. by rewrite IH.
Qed.

(** The loop over the containers rewrites each of them in place. *)
Lemma removeMounts_range l :
  ∀ p,
    for_range (length p) l removeMounts_at (p ++ l)
    = Some (p ++ ((λ c, set_VolumeMounts
                          (removeMounts volumeNamesToRemove (Container_VolumeMounts c)) c)
                    <$> l)).
Proof.
  induction l as [|x l IH]; intros p.
  - done.
  - rewrite for_range_cons. unfold removeMounts_at at 1.
    rewrite list_lookup_middle by done. rewrite insert_at_length.
    rewrite fmap_cons.
    rewrite (cons_middle _ p l), (cons_middle _ p (_ <$> l)), !app_assoc.
    replace (S (length p)) with (length (p ++ [set_VolumeMounts
      (removeMounts volumeNamesToRemove (Container_VolumeMounts x)) x]))
      by (rewrite length_app; simpl; lia).
    apply IH.
Qed.

Lemma removeMounts_range_without_TLS containers :
  (∀ c, c ∈ containers →
     at_most_once VolumeMount_Name volumeNamesToRemove
       (elems (Container_VolumeMounts c))) →
  for_range 0 containers removeMounts_at containers
  = Some (without_TLS_mounts <$> containers).
Proof.
  intros Honce. etrans; [exact (removeMounts_range containers [])|].
  rewrite app_nil_l. f_equal.
  apply list_fmap_ext. intros i c Hc. unfold without_TLS_mounts.
  rewrite removeMounts_filter; [done|]. by eapply Honce, list_elem_of_lookup_2.
Qed.

Lemma set_Volumes_same existing volumes :
  Spec_Template_Spec_Volumes existing = Some volumes →
  set_Volumes (Some volumes) existing = existing.
Proof. destruct existing. simpl. by intros ->. Qed.

Lemma RemoveTLS_no_TLS_volume desired existing :
  ¬ has_TLS_volume existing →
  DeploymentRemoveTLSVolumesAndMountsMutator desired existing
  = Returned existing false None.
Proof.
  intros Hnone. unfold DeploymentRemoveTLSVolumesAndMountsMutator.
  destruct (Spec_Template_Spec_Volumes existing) as [volumes|] eqn:Hvolumes; [|done].
  rewrite removeVolumes_clean.
  - by rewrite set_Volumes_same.
  - intros v Hv Hin. apply Hnone. exists v. by rewrite Hvolumes.
Qed.

Lemma without_TLS_no_TLS_volume existing : ¬ has_TLS_volume (without_TLS existing).
Proof.
  intros (v & Hv & Hin). unfold without_TLS, without_TLS_volumes in Hv.
  cbn [Spec_Template_Spec_Volumes set_InitContainers set_Containers set_Volumes elems
       default] in Hv.
  by apply list_elem_of_filter in Hv as [Hout _].
Qed.

(** C7, amended.  In a Deployment where each of "writable-tls" and
    "tls-secret" names at most one volume and, in every container and init
    container, at most one mount, the mutator returns [changed = true]
    exactly when there is a volume of one of these names; then the volumes
    of these names are deleted and so are the mounts of these names in every
    container and init container; otherwise existing is left as it is,
    mounts of these names included.  A second run on the result returns
    [changed = false] and changes nothing. *)
Theorem DeploymentRemoveTLSVolumesAndMountsMutator_volumes_decide desired existing :
  TLS_names_at_most_once existing →
  ∃ existing' changed,
    DeploymentRemoveTLSVolumesAndMountsMutator desired existing
    = Returned existing' changed None
    ∧ (changed = true ↔ has_TLS_volume existing)
    ∧ existing' = (if changed then without_TLS existing else existing)
    ∧ DeploymentRemoveTLSVolumesAndMountsMutator desired existing'
      = Returned existing' false None.
Proof.
  intros [Hvolumes Hmounts].
  destruct (decide (Exists (λ v, Volume_Name v ∈ volumeNamesToRemove)
                      (elems (Spec_Template_Spec_Volumes existing)))) as [Hsome|Hnone].
  - apply Exists_exists in Hsome.
    exists (without_TLS existing), true.
    split; [|split; [done|split; [done|]]].
    + unfold DeploymentRemoveTLSVolumesAndMountsMutator.
      destruct (Spec_Template_Spec_Volumes existing) as [volumes|] eqn:Hvs.
      2:{ destruct Hsome as (v & Hv & _). by apply elem_of_nil in Hv. }
      destruct (removeVolumes_filter volumeNamesToRemove volumes false Hvolumes)
        as [Hlist Hflag].
      destruct (removeVolumes volumeNamesToRemove volumes false)
        as [volumes' volumeModified].
      cbn [fst snd] in Hlist, Hflag. subst volumes'.
      assert (volumeModified = true) as -> by (apply Hflag; by right).
      cbn [Spec_Template_Spec_Containers set_Volumes].
      rewrite removeMounts_range_without_TLS by (intros c Hc; apply Hmounts; by left).
      cbn [Spec_Template_Spec_InitContainers set_Containers].
      rewrite removeMounts_range_without_TLS by (intros c Hc; apply Hmounts; by right).
      unfold without_TLS, without_TLS_volumes. by rewrite Hvs.
    + apply RemoveTLS_no_TLS_volume, without_TLS_no_TLS_volume.
  - assert (¬ has_TLS_volume existing) as Hnot.
    { intros Hhas. apply Hnone, Exists_exists. exact Hhas. }
    exists existing, false.
    split; [by apply RemoveTLS_no_TLS_volume|].
    split; [naive_solver|]. split; [done|]. by apply RemoveTLS_no_TLS_volume.
Qed.

Lemma DeploymentRemoveTLSVolumesAndMountsMutator_volumes_decide_witness :
  let volume name := {| Volume_Name := name; Volume_Source := "secret" |} in
  let mount name := {| VolumeMount_Name := name; VolumeMount_MountPath := "/" +:+ name |} in
  let existing :=
    sample_deployment (Some [volume "writable-tls"; volume "data"])
      [sample_container [] [mount "tls-secret"; mount "data"]]
      [sample_container [] [mount "writable-tls"; mount "data"]] in
  let existing' :=
    sample_deployment (Some [volume "data"])
      [sample_container [] [mount "data"]] [sample_container [] [mount "data"]] in
  TLS_names_at_most_once existing
  ∧ ∃ changed,
      DeploymentRemoveTLSVolumesAndMountsMutator existing existing
      = Returned existing' changed None
      ∧ (changed = true ↔ has_TLS_volume existing)
      ∧ DeploymentRemoveTLSVolumesAndMountsMutator existing existing'
        = Returned existing' false None.
Proof.
  intros volume mount existing existing'.
  assert (Honce : TLS_names_at_most_once existing).
  { split.
    - intros name Hname. repeat (apply elem_of_cons in Hname as [->|Hname]);
        [vm_compute; lia..|by apply elem_of_nil in Hname].
    - intros c [Hc|Hc]; repeat (apply elem_of_cons in Hc as [->|Hc]);
        try (by apply elem_of_nil in Hc);
        intros name Hname; repeat (apply elem_of_cons in Hname as [->|Hname]);
        try (by apply elem_of_nil in Hname); vm_compute; lia. }
  split; [exact Honce|].
  destruct (DeploymentRemoveTLSVolumesAndMountsMutator_volumes_decide existing existing
              Honce) as (result & changed & Hrun & Hchanged & Hresult & Hagain).
  vm_compute in Hrun. injection Hrun as <- <-.
  exists true. split; [reflexivity|]. split; [exact Hchanged|reflexivity].
Defined.

(** * Further properties of the code *)

(** ** The pipeline over a concatenated list *)

Lemma DeploymentMutator_loop_update opts :
  ∀ desired existing update,
    DeploymentMutator_loop opts desired existing update
    = match DeploymentMutator_loop opts desired existing false with
      | Returned existing' changed None => Returned existing' (update || changed) None
      | failed => failed
      end.
Proof.
  induction opts as [|opt opts IH]; intros desired existing update; simpl.
  - by rewrite orb_false_r.
  - destruct (opt desired existing) as [existing' tmpUpdate [err|]|]; [done| |done].
    rewrite (IH _ _ (update || tmpUpdate)), (IH _ _ tmpUpdate).
    destruct (DeploymentMutator_loop opts desired existing' false)
      as [existing'' changed [err|]|]; [done| |done].
    by rewrite orb_assoc.
Qed.

Lemma DeploymentMutator_loop_app opts1 opts2 :
  ∀ desired existing update,
    DeploymentMutator_loop (opts1 ++ opts2) desired existing update
    = match DeploymentMutator_loop opts1 desired existing update with
      | Returned mid update1 None => DeploymentMutator_loop opts2 desired mid update1
      | failed => failed
      end.
Proof.
  induction opts1 as [|opt opts1 IH]; intros desired existing update; simpl; [done|].
  destruct (opt desired existing) as [existing' tmpUpdate [err|]|]; [done| |done].
  apply IH.
Qed.

(** X1.  The pipeline over [opts1 ++ opts2] is the pipeline over [opts1]
    followed, when that one returns a nil error, by the pipeline over
    [opts2] on the object it left, the two [changed] results being OR-ed;
    an error or a panic of either part is the result of the whole. *)
Theorem DeploymentMutator_app opts1 opts2 desired existing :
  DeploymentMutator (opts1 ++ opts2) (ObjDeployment existing) (ObjDeployment desired)
  = match DeploymentMutator opts1 (ObjDeployment existing) (ObjDeployment desired) with
    | Returned (ObjDeployment mid) changed1 None =>
        match DeploymentMutator opts2 (ObjDeployment mid) (ObjDeployment desired) with
        | Returned obj changed2 None => Returned obj (changed1 || changed2) None
        | failed => failed
        end
    | failed => failed
    end.
Proof.
  unfold DeploymentMutator. rewrite DeploymentMutator_loop_app.
  destruct (DeploymentMutator_loop opts1 desired existing false)
    as [mid changed1 [err|]|]; [done| |done].
  rewrite DeploymentMutator_loop_update.
  by destruct (DeploymentMutator_loop opts2 desired mid false)
    as [existing' changed2 [err|]|].
Qed.

Lemma DeploymentMutator_loop_quiet opts :
  Forall quiet opts →
  ∀ desired existing existing',
    DeploymentMutator_loop opts desired existing false = Returned existing' false None →
    existing' = existing.
Proof.
  induction 1 as [|opt opts Hopt _ IH]; intros desired existing existing'; simpl.
  - by intros [= <-].
  - destruct (opt desired existing) as [mid tmpUpdate [err|]|] eqn:Hrun; [done| |done].
    rewrite DeploymentMutator_loop_update.
    destruct (DeploymentMutator_loop opts desired mid false)
      as [final changed [err|]|] eqn:Hrest; [done| |done].
    intros [= <- Hor]. apply orb_false_elim in Hor as [-> ->].
    rewrite (IH _ _ _ Hrest). by apply (Hopt desired).
Qed.

(** X2.  When every mutator of the list leaves existing untouched whenever
    it reports no change, so does the pipeline: a result [(false, nil)]
    means the existing object is as it was. *)
Theorem DeploymentMutator_quiet opts desired existing obj :
  Forall quiet opts →
  DeploymentMutator opts (ObjDeployment existing) (ObjDeployment desired)
  = Returned obj false None →
  obj = ObjDeployment existing.
Proof.
  intros Hquiet. unfold DeploymentMutator.
  destruct (DeploymentMutator_loop opts desired existing false)
    as [existing' changed err|] eqn:Hloop; [|done].
  intros [= <- -> ->]. by rewrite (DeploymentMutator_loop_quiet opts Hquiet _ _ _ Hloop).
Qed.

(** ** Mutators that report no change have made none *)

Lemma set_Containers_same existing :
  set_Containers (Spec_Template_Spec_Containers existing) existing = existing.
Proof. by destruct existing. Qed.

Lemma set_InitContainers_same existing :
  set_InitContainers (Spec_Template_Spec_InitContainers existing) existing = existing.
Proof. by destruct existing. Qed.

Lemma set_Env_same c : set_Env (Container_Env c) c = c.
Proof. by destruct c. Qed.

Lemma store_Env_same existing c0 :
  Spec_Template_Spec_Containers existing !! 0 = Some c0 →
  set_Containers
    (<[0 := set_Env (Container_Env c0) c0]> (Spec_Template_Spec_Containers existing))
    existing
  = existing.
Proof.
  intros Hc0. rewrite set_Env_same, list_insert_id by done. apply set_Containers_same.
Qed.

Section QuietLoop.

Context {A : Type}.
Variable body : nat → A → list Container * bool → option (list Container * bool).
Hypothesis body_quiet :
  ∀ i x containers updated containers' updated',
    body i x (containers, updated) = Some (containers', updated') →
    updated' = false → containers' = containers ∧ updated = false.

Lemma for_range_quiet l :
  ∀ i containers updated containers' updated',
    for_range i l body (containers, updated) = Some (containers', updated') →
    updated' = false → containers' = containers ∧ updated = false.
Proof.
  induction l as [|x l IH]; intros i cs u cs' u' Hloop Hfalse.
  - by injection Hloop as <- <-.
  - rewrite for_range_cons in Hloop.
    destruct (body i x (cs, u)) as [[cs1 u1]|] eqn:Hbody; [|done].
    destruct (IH _ _ _ _ _ Hloop Hfalse) as [-> ->].
    by apply (body_quiet _ _ _ _ _ _ Hbody).
Qed.

End QuietLoop.

Lemma ArgsMutator_at_quiet i x containers updated containers' updated' :
  ArgsMutator_at i x (containers, updated) = Some (containers', updated') →
  updated' = false → containers' = containers ∧ updated = false.
Proof.
  unfold ArgsMutator_at. destruct (containers !! i); [|done].
  case_decide; intros [= <- <-]; done.
Qed.

Lemma ProbesMutator_at_quiet i x containers updated containers' updated' :
  ProbesMutator_at i x (containers, updated) = Some (containers', updated') →
  updated' = false → containers' = containers ∧ updated = false.
Proof.
  unfold ProbesMutator_at. destruct (containers !! i) as [e|] eqn:He; [|done].
  destruct (decide (Container_LivenessProbe e ≠ _)); cbn beta iota;
    destruct (decide (Container_ReadinessProbe _ ≠ _)); cbn beta iota;
    intros [= <- <-]; try done.
  intros ->. by rewrite list_insert_id.
Qed.

Lemma PodContainerImageMutator_at_quiet i x containers updated containers' updated' :
  PodContainerImageMutator_at i x (containers, updated) = Some (containers', updated') →
  updated' = false → containers' = containers ∧ updated = false.
Proof.
  unfold PodContainerImageMutator_at. destruct (containers !! i); [|done].
  case_decide; intros [= <- <-]; done.
Qed.

Lemma PodInitContainerImageMutator_at_quiet i x containers updated containers' updated' :
  PodInitContainerImageMutator_at i x (containers, updated)
  = Some (containers', updated') →
  updated' = false → containers' = containers ∧ updated = false.
Proof.
  unfold PodInitContainerImageMutator_at. case_decide; [by intros [= <- <-]|].
  destruct (containers !! i); [|done].
  case_decide; intros [= <- <-]; done.
Qed.

Lemma PodInitContainerMutator_at_quiet i x containers updated containers' updated' :
  PodInitContainerMutator_at i x (containers, updated) = Some (containers', updated') →
  updated' = false → containers' = containers ∧ updated = false.
Proof.
  unfold PodInitContainerMutator_at. case_decide; [by intros [= <- <-]|].
  destruct (containers !! i); [|done].
  case_decide; intros [= <- <-]; done.
Qed.

Lemma RemoveDuplicateEnvVarMutator_at_quiet prune i x containers updated containers'
    updated' :
  RemoveDuplicateEnvVarMutator_at prune i x (containers, updated)
  = Some (containers', updated') →
  updated' = false → containers' = containers ∧ updated = false.
Proof.
  unfold RemoveDuplicateEnvVarMutator_at. destruct (containers !! i); [|done].
  case_decide; intros [= <- <-]; done.
Qed.

Lemma DeploymentArgsMutator_quiet : quiet DeploymentArgsMutator.
Proof.
  intros desired existing existing'. unfold DeploymentArgsMutator.
  destruct (for_range _ _ _ _) as [[cs u]|] eqn:Hloop; [|done]. intros [= <- ->].
  destruct (for_range_quiet _ ArgsMutator_at_quiet _ _ _ _ _ _ Hloop eq_refl) as [-> _].
  apply set_Containers_same.
Qed.

Lemma DeploymentProbesMutator_quiet : quiet DeploymentProbesMutator.
Proof.
  intros desired existing existing'. unfold DeploymentProbesMutator.
  destruct (for_range _ _ _ _) as [[cs u]|] eqn:Hloop; [|done]. intros [= <- ->].
  destruct (for_range_quiet _ ProbesMutator_at_quiet _ _ _ _ _ _ Hloop eq_refl) as [-> _].
  apply set_Containers_same.
Qed.

Lemma DeploymentPodContainerImageMutator_quiet : quiet DeploymentPodContainerImageMutator.
Proof.
  intros desired existing existing'. unfold DeploymentPodContainerImageMutator.
  destruct (for_range _ _ _ _) as [[cs u]|] eqn:Hloop; [|done]. intros [= <- ->].
  destruct (for_range_quiet _ PodContainerImageMutator_at_quiet _ _ _ _ _ _ Hloop eq_refl)
    as [-> _].
  apply set_Containers_same.
Qed.

Lemma DeploymentPodInitContainerImageMutator_quiet :
  quiet DeploymentPodInitContainerImageMutator.
Proof.
  intros desired existing existing'. unfold DeploymentPodInitContainerImageMutator.
  destruct (for_range _ _ _ _) as [[cs u]|] eqn:Hloop; [|done]. intros [= <- ->].
  destruct (for_range_quiet _ PodInitContainerImageMutator_at_quiet _ _ _ _ _ _ Hloop
              eq_refl) as [-> _].
  apply set_InitContainers_same.
Qed.

Lemma DeploymentPodInitContainerMutator_quiet : quiet DeploymentPodInitContainerMutator.
Proof.
  intros desired existing existing'. unfold DeploymentPodInitContainerMutator.
  case_decide.
  - destruct (for_range _ _ _ _) as [[cs u]|] eqn:Hloop; [|done]. intros [= <- ->].
    by destruct (for_range_quiet _ PodInitContainerMutator_at_quiet _ _ _ _ _ _ Hloop
                   eq_refl) as [_ ?].
  - destruct (for_range _ _ _ _) as [[cs u]|] eqn:Hloop; [|done]. intros [= <- ->].
    destruct (for_range_quiet _ PodInitContainerMutator_at_quiet _ _ _ _ _ _ Hloop
                eq_refl) as [-> _].
    apply set_InitContainers_same.
Qed.

Lemma DeploymentRemoveDuplicateEnvVarMutator_quiet prune :
  quiet (DeploymentRemoveDuplicateEnvVarMutator prune).
Proof.
  intros desired existing existing'. unfold DeploymentRemoveDuplicateEnvVarMutator.
  destruct (for_range _ _ _ _) as [[cs u]|] eqn:Hloop; [|done]. intros [= <- ->].
  destruct (for_range_quiet _ (RemoveDuplicateEnvVarMutator_at_quiet prune)
              _ _ _ _ _ _ Hloop eq_refl) as [-> _].
  apply set_Containers_same.
Qed.

Lemma DeploymentPriorityClassMutator_quiet : quiet DeploymentPriorityClassMutator.
Proof.
  intros desired existing existing'. unfold DeploymentPriorityClassMutator.
  case_decide; by intros [= <-].
Qed.

Lemma DeploymentListenerArgsMutator_quiet : quiet DeploymentListenerArgsMutator.
Proof.
  intros desired existing existing'. unfold DeploymentListenerArgsMutator.
  destruct (_ !! 0); [|done]. case_decide; by intros [= <-].
Qed.

Lemma DeploymentListenerAsyncDisableArgsMutator_quiet :
  quiet DeploymentListenerAsyncDisableArgsMutator.
Proof.
  intros desired existing existing'. unfold DeploymentListenerAsyncDisableArgsMutator.
  destruct (_ !! 0); [|done]. case_decide; by intros [= <-].
Qed.

Lemma DeploymentContainerResourcesMutator_quiet info cmp :
  quiet (DeploymentContainerResourcesMutator info cmp).
Proof.
  intros desired existing existing'. unfold DeploymentContainerResourcesMutator.
  case_decide; [done|].
  destruct (decide (length (Spec_Template_Spec_Containers existing) ≠ 1));
    cbn beta iota; repeat case_match; try done; by intros [= <-].
Qed.

(** ** Listener env mutators: when they settle *)

Lemma names_insert_value i value (x : EnvVar) (env : list EnvVar) :
  env !! i = Some x →
  EnvVar_Name <$> <[i := set_EnvVar_Value value x]> env = EnvVar_Name <$> env.
Proof.
  intros Hi. rewrite list_fmap_insert. simpl. apply list_insert_id.
  by rewrite list_lookup_fmap, Hi.
Qed.

Lemma ListenerEnv_loop_cons i x pending env updateLW updateCRA :
  elems env !! i = Some x →
  ListenerEnv_loop i (x :: pending) env updateLW updateCRA
  = if decide (listed x ∧ EnvVar_Value x = "0") then
      ScanReturned (Some (<[i := set_EnvVar_Value "1" x]> (elems env)))
    else
      ListenerEnv_loop (S i) pending env
        (if decide (EnvVar_Name x = "LISTENER_WORKERS") then false else updateLW)
        (if decide (EnvVar_Name x = "CONFIG_REDIS_ASYNC") then false else updateCRA).
Proof.
  intros Hi. simpl. unfold set_Value_at, listed. rewrite Hi.
  destruct (decide (EnvVar_Name x = "LISTENER_WORKERS")) as [HLW|HLW];
    destruct (decide (EnvVar_Name x = "CONFIG_REDIS_ASYNC")) as [HCRA|HCRA];
    try (rewrite HLW in HCRA; discriminate);
    destruct (decide (EnvVar_Value x = "0")) as [Hzero|Hzero]; simpl;
    try rewrite Hi; simpl;
    repeat case_decide; try done; naive_solver.
Qed.

Lemma ListenerAsyncDisableEnv_loop_cons i x pending env updateLW updateCRA :
  elems env !! i = Some x →
  ListenerAsyncDisableEnv_loop i (x :: pending) env updateLW updateCRA
  = if decide (EnvVar_Name x = "LISTENER_WORKERS" ∧ EnvVar_Value x = "1") then
      ScanReturned (removeEnvVar env "LISTENER_WORKERS")
    else if decide (EnvVar_Name x = "CONFIG_REDIS_ASYNC" ∧ EnvVar_Value x = "1") then
      ScanReturned (Some (<[i := set_EnvVar_Value "0" x]> (elems env)))
    else
      ListenerAsyncDisableEnv_loop (S i) pending env
        (if decide (EnvVar_Name x = "LISTENER_WORKERS") then false else updateLW)
        (if decide (EnvVar_Name x = "CONFIG_REDIS_ASYNC") then false else updateCRA).
Proof.
  intros Hi. simpl. unfold set_Value_at.
  destruct (decide (EnvVar_Name x = "LISTENER_WORKERS")) as [HLW|HLW];
    destruct (decide (EnvVar_Name x = "CONFIG_REDIS_ASYNC")) as [HCRA|HCRA];
    try (rewrite HLW in HCRA; discriminate);
    destruct (decide (EnvVar_Value x = "1")) as [Hone|Hone]; simpl;
    try rewrite Hi; simpl;
    repeat case_decide; try done; naive_solver.
Qed.

Lemma flag_after_entry (name : string) (flag : bool) (x : EnvVar) (pending : list EnvVar) :
  (if decide (EnvVar_Name x = name) then false else flag)
  && bool_decide (name ∉ EnvVar_Name <$> pending)
  = flag && bool_decide (name ∉ EnvVar_Name <$> x :: pending).
Proof.
  rewrite fmap_cons. case_decide as Hname.
  - rewrite (bool_decide_eq_false_2 (name ∉ EnvVar_Name x :: _));
      [by rewrite andb_false_r|].
    intros Hout. apply Hout. rewrite Hname. apply list_elem_of_here.
  - f_equal. apply bool_decide_ext. rewrite not_elem_of_cons. naive_solver.
Qed.

Lemma ListenerEnv_loop_spec pending :
  ∀ env p,
    elems env = p ++ pending →
    ∀ updateLW updateCRA,
      (Forall (λ e, ¬ (listed e ∧ EnvVar_Value e = "0")) pending →
       ListenerEnv_loop (length p) pending env updateLW updateCRA
       = ScanDone env
           (updateLW && bool_decide ("LISTENER_WORKERS" ∉ EnvVar_Name <$> pending))
           (updateCRA && bool_decide ("CONFIG_REDIS_ASYNC" ∉ EnvVar_Name <$> pending)))
      ∧ (Exists (λ e, listed e ∧ EnvVar_Value e = "0") pending →
         ∃ env',
           ListenerEnv_loop (length p) pending env updateLW updateCRA
           = ScanReturned env'
           ∧ EnvVar_Name <$> elems env' = EnvVar_Name <$> elems env).
Proof.
  induction pending as [|x pending IH]; intros env p Henv updateLW updateCRA.
  - split.
    + intros _. simpl. by rewrite !andb_true_r.
    + intros Hex. by apply Exists_nil in Hex.
  - assert (elems env !! length p = Some x) as Hx
      by (rewrite Henv; by apply list_lookup_middle).
    rewrite (ListenerEnv_loop_cons _ _ _ _ _ _ Hx).
    specialize (IH env (p ++ [x])). rewrite length_app, Nat.add_1_r, <- app_assoc in IH.
    simpl in IH. specialize (IH Henv). split.
    + intros [Hhead Htail]%Forall_cons. rewrite decide_False by done.
      destruct (IH (if decide (EnvVar_Name x = "LISTENER_WORKERS") then false
                    else updateLW)
                  (if decide (EnvVar_Name x = "CONFIG_REDIS_ASYNC") then false
                   else updateCRA)) as [Hdone _].
      rewrite Hdone by done. by rewrite !flag_after_entry.
    + intros Hex. destruct (decide (listed x ∧ EnvVar_Value x = "0")) as [Hneeds|Hneeds].
      * eexists. split; [reflexivity|]. by apply names_insert_value.
      * apply Exists_cons in Hex as [Hhead|Htail]; [done|]. by apply IH.
Qed.

Lemma ListenerAsyncDisableEnv_loop_spec pending :
  ∀ env p,
    elems env = p ++ pending →
    ∀ updateLW updateCRA,
      (Forall (λ e, ¬ (listed e ∧ EnvVar_Value e = "1")) pending →
       ListenerAsyncDisableEnv_loop (length p) pending env updateLW updateCRA
       = ScanDone env
           (updateLW && bool_decide ("LISTENER_WORKERS" ∉ EnvVar_Name <$> pending))
           (updateCRA && bool_decide ("CONFIG_REDIS_ASYNC" ∉ EnvVar_Name <$> pending)))
      ∧ (Exists (λ e, listed e ∧ EnvVar_Value e = "1") pending →
         ∃ env',
           ListenerAsyncDisableEnv_loop (length p) pending env updateLW updateCRA
           = ScanReturned env').
Proof.
  induction pending as [|x pending IH]; intros env p Henv updateLW updateCRA.
  - split.
    + intros _. simpl. by rewrite !andb_true_r.
    + intros Hex. by apply Exists_nil in Hex.
  - assert (elems env !! length p = Some x) as Hx
      by (rewrite Henv; by apply list_lookup_middle).
    rewrite (ListenerAsyncDisableEnv_loop_cons _ _ _ _ _ _ Hx).
    specialize (IH env (p ++ [x])). rewrite length_app, Nat.add_1_r, <- app_assoc in IH.
    simpl in IH. specialize (IH Henv). split.
    + intros [Hhead Htail]%Forall_cons. unfold listed in Hhead.
      rewrite !decide_False by naive_solver.
      destruct (IH (if decide (EnvVar_Name x = "LISTENER_WORKERS") then false
                    else updateLW)
                  (if decide (EnvVar_Name x = "CONFIG_REDIS_ASYNC") then false
                   else updateCRA)) as [Hdone _].
      rewrite Hdone by done. by rewrite !flag_after_entry.
    + intros Hex.
      destruct (decide (EnvVar_Name x = "LISTENER_WORKERS" ∧ EnvVar_Value x = "1"))
        as [HLW|HLW]; [by eexists|].
      destruct (decide (EnvVar_Name x = "CONFIG_REDIS_ASYNC" ∧ EnvVar_Value x = "1"))
        as [HCRA|HCRA]; [by eexists|].
      apply Exists_cons in Hex as [[[?|?] ?]|Htail]; [naive_solver..|]. by apply IH.
Qed.

Lemma not_Exists_Forall_not {A} (P : A → Prop) (l : list A) :
  ¬ Exists P l → Forall (λ x, ¬ P x) l.
Proof.
  intros Hnone. apply Forall_forall. intros x Hx HP.
  apply Hnone, Exists_exists. by exists x.
Qed.

Lemma needs_not_settled off (env : list EnvVar) :
  Exists (λ e, listed e ∧ EnvVar_Value e = off) env → ¬ settled_listener off env.
Proof.
  intros (e & He & Hlisted & Hvalue)%Exists_exists (_ & _ & Hnone).
  by apply (Hnone e He Hlisted).
Qed.

Lemma none_needs_settled off (env : list EnvVar) :
  ¬ Exists (λ e, listed e ∧ EnvVar_Value e = off) env →
  settled_listener off env
  ↔ "LISTENER_WORKERS" ∈ EnvVar_Name <$> env ∧ "CONFIG_REDIS_ASYNC" ∈ EnvVar_Name <$> env.
Proof.
  intros Hnone. unfold settled_listener. split; [naive_solver|].
  intros [HLW HCRA]. split; [done|]. split; [done|].
  intros e He Hlisted Hvalue. apply Hnone, Exists_exists. by exists e.
Qed.

Lemma elems_append {A} (s : option (list A)) (x : A) : elems (append s x) = elems s ++ [x].
Proof. done. Qed.

(** What [DeploymentListenerEnvMutator] does to a Deployment with a first
    container [c0]: only the environment of [c0] is written. *)
Lemma DeploymentListenerEnvMutator_result desired existing c0 :
  Spec_Template_Spec_Containers existing !! 0 = Some c0 →
  ∃ env changed,
    DeploymentListenerEnvMutator desired existing
    = Returned
        (set_Containers
           (<[0 := set_Env env c0]> (Spec_Template_Spec_Containers existing)) existing)
        changed None
    ∧ (changed = false ↔ settled_listener "0" (elems (Container_Env c0)))
    ∧ (changed = false → env = Container_Env c0)
    ∧ EnvVar_Name <$> elems (Container_Env c0) `prefix_of` EnvVar_Name <$> elems env
    ∧ length (elems env) ≤ length (elems (Container_Env c0)) + 2.
Proof.
  intros Hc0. unfold DeploymentListenerEnvMutator. rewrite Hc0.
  destruct (ListenerEnv_loop_spec (elems (Container_Env c0)) (Container_Env c0) []
              eq_refl true true) as [Hdone Hret].
  simpl in Hdone, Hret.
  destruct (decide (Exists (λ e, listed e ∧ EnvVar_Value e = "0")
                      (elems (Container_Env c0))))
    as [Hex|Hnone].
  - destruct (Hret Hex) as (env & -> & Hnames).
    exists env, true. split; [done|]. split.
    { split; [done|]. intros Hsettled. by apply needs_not_settled in Hex. }
    split; [done|]. split; [rewrite Hnames; reflexivity|].
    apply (f_equal length) in Hnames. rewrite !length_fmap in Hnames. lia.
  - rewrite Hdone by (by apply not_Exists_Forall_not).
    pose proof (none_needs_settled "0" _ Hnone) as Hsettled.
    destruct (bool_decide ("LISTENER_WORKERS" ∉ EnvVar_Name <$> elems (Container_Env c0)))
      eqn:HLW;
      destruct (bool_decide ("CONFIG_REDIS_ASYNC" ∉ EnvVar_Name <$> elems (Container_Env c0)))
        eqn:HCRA; simpl;
      [apply bool_decide_eq_true in HLW|apply bool_decide_eq_true in HLW
      |apply bool_decide_eq_false in HLW|apply bool_decide_eq_false in HLW];
      [apply bool_decide_eq_true in HCRA|apply bool_decide_eq_false in HCRA
      |apply bool_decide_eq_true in HCRA|apply bool_decide_eq_false in HCRA].
    + eexists _, true. split; [done|].
      split; [split; [done|]; by intros [? ?]%Hsettled|]. split; [done|].
      rewrite !elems_append, !fmap_app, <- app_assoc. split; [by apply prefix_app_r|].
      rewrite !length_app. simpl. lia.
    + eexists _, true. split; [done|].
      split; [split; [done|]; by intros [? ?]%Hsettled|]. split; [done|].
      rewrite !elems_append, !fmap_app. split; [by apply prefix_app_r|].
      rewrite !length_app. simpl. lia.
    + eexists _, true. split; [done|].
      split; [split; [done|]; by intros [? ?]%Hsettled|]. split; [done|].
      rewrite !elems_append, !fmap_app. split; [by apply prefix_app_r|].
      rewrite !length_app. simpl. lia.
    + apply dec_stable in HLW, HCRA.
      eexists _, false. split; [done|].
      split; [split; [intros _; by apply Hsettled|done]|]. split; [done|].
      split; [reflexivity|]. lia.
Qed.

(** X3.  On a Deployment with a first container [c0],
    [DeploymentListenerEnvMutator] never panics and never returns an error;
    it reports [changed = false] exactly when LISTENER_WORKERS and
    CONFIG_REDIS_ASYNC are both in the environment of [c0] with no entry of
    either at "0", and then it leaves existing as it is. *)
Theorem DeploymentListenerEnvMutator_settles desired existing c0 :
  Spec_Template_Spec_Containers existing !! 0 = Some c0 →
  ∃ existing' changed,
    DeploymentListenerEnvMutator desired existing = Returned existing' changed None
    ∧ (changed = false ↔ settled_listener "0" (elems (Container_Env c0)))
    ∧ (changed = false → existing' = existing).
Proof.
  intros Hc0.
  destruct (DeploymentListenerEnvMutator_result desired existing c0 Hc0)
    as (env & changed & Hrun & Hsettled & Hsame & _).
  eexists _, changed. split; [exact Hrun|]. split; [done|].
  intros Hfalse. rewrite (Hsame Hfalse). by apply store_Env_same.
Qed.

(** X4.  [DeploymentListenerEnvMutator] writes nothing but the environment
    of the first container, and there it only rewrites values and appends:
    the names of the old entries stay where they were, and at most two
    entries are added. *)
Theorem DeploymentListenerEnvMutator_keeps_names desired existing c0 :
  Spec_Template_Spec_Containers existing !! 0 = Some c0 →
  ∃ env changed,
    DeploymentListenerEnvMutator desired existing
    = Returned
        (set_Containers
           (<[0 := set_Env env c0]> (Spec_Template_Spec_Containers existing)) existing)
        changed None
    ∧ EnvVar_Name <$> elems (Container_Env c0) `prefix_of` EnvVar_Name <$> elems env
    ∧ length (elems env) ≤ length (elems (Container_Env c0)) + 2.
Proof.
  intros Hc0.
  destruct (DeploymentListenerEnvMutator_result desired existing c0 Hc0)
    as (env & changed & Hrun & _ & _ & Hnames & Hlength).
  by exists env, changed.
Qed.

Lemma DeploymentListenerAsyncDisableEnvMutator_fixed desired existing c0 :
  Spec_Template_Spec_Containers existing !! 0 = Some c0 →
  ∃ existing' changed,
    DeploymentListenerAsyncDisableEnvMutator desired existing
    = Returned existing' changed None
    ∧ (changed = false ↔ settled_listener "1" (elems (Container_Env c0)))
    ∧ (changed = false → existing' = existing).
Proof.
  intros Hc0. unfold DeploymentListenerAsyncDisableEnvMutator. rewrite Hc0.
  destruct (ListenerAsyncDisableEnv_loop_spec (elems (Container_Env c0))
              (Container_Env c0) [] eq_refl true true) as [Hdone Hret].
  simpl in Hdone, Hret.
  destruct (decide (Exists (λ e, listed e ∧ EnvVar_Value e = "1")
                      (elems (Container_Env c0))))
    as [Hex|Hnone].
  - destruct (Hret Hex) as (env & ->).
    eexists _, true. split; [done|]. split; [|done].
    split; [done|]. intros Hsettled. by apply needs_not_settled in Hex.
  - rewrite Hdone by (by apply not_Exists_Forall_not).
    pose proof (none_needs_settled "1" _ Hnone) as Hsettled.
    destruct (bool_decide ("LISTENER_WORKERS" ∉ EnvVar_Name <$> elems (Container_Env c0)))
      eqn:HLW;
      destruct (bool_decide ("CONFIG_REDIS_ASYNC" ∉ EnvVar_Name <$> elems (Container_Env c0)))
        eqn:HCRA; simpl;
      [apply bool_decide_eq_true in HLW|apply bool_decide_eq_true in HLW
      |apply bool_decide_eq_false in HLW|apply bool_decide_eq_false in HLW];
      [apply bool_decide_eq_true in HCRA|apply bool_decide_eq_false in HCRA
      |apply bool_decide_eq_true in HCRA|apply bool_decide_eq_false in HCRA].
    + eexists _, true. split; [done|].
      split; [split; [done|]; by intros [? ?]%Hsettled|done].
    + eexists _, true. split; [done|].
      split; [split; [done|]; by intros [? ?]%Hsettled|done].
    + eexists _, true. split; [done|].
      split; [split; [done|]; by intros [? ?]%Hsettled|done].
    + apply dec_stable in HLW, HCRA.
      eexists _, false. split; [done|].
      split; [split; [intros _; by apply Hsettled|done]|].
      intros _. by apply store_Env_same.
Qed.

(** X5.  On a Deployment with a first container [c0],
    [DeploymentListenerAsyncDisableEnvMutator] never panics and never returns
    an error; it reports [changed = false] exactly when LISTENER_WORKERS and
    CONFIG_REDIS_ASYNC are both in the environment of [c0] with no entry of
    either at "1", and then it leaves existing as it is.  So it reports a
    change on every environment without LISTENER_WORKERS, the variable it
    removes. *)
Theorem DeploymentListenerAsyncDisableEnvMutator_settles desired existing c0 :
  Spec_Template_Spec_Containers existing !! 0 = Some c0 →
  ∃ existing' changed,
    DeploymentListenerAsyncDisableEnvMutator desired existing
    = Returned existing' changed None
    ∧ (changed = false ↔ settled_listener "1" (elems (Container_Env c0)))
    ∧ (changed = false → existing' = existing).
Proof. apply DeploymentListenerAsyncDisableEnvMutator_fixed. Qed.

(** ** Worker env mutators: when they settle *)

Lemma WorkerEnv_loop_spec from to pending :
  ∀ env p,
    elems env = p ++ pending →
    ∀ update,
      (Forall (λ e, ¬ (EnvVar_Name e = "CONFIG_REDIS_ASYNC" ∧ EnvVar_Value e = from))
         pending →
       WorkerEnv_loop from to (length p) pending env update
       = WorkerDone
           (update && bool_decide ("CONFIG_REDIS_ASYNC" ∉ EnvVar_Name <$> pending)))
      ∧ (Exists (λ e, EnvVar_Name e = "CONFIG_REDIS_ASYNC" ∧ EnvVar_Value e = from)
           pending →
         ∃ env',
           WorkerEnv_loop from to (length p) pending env update
           = WorkerReturned env'
           ∧ EnvVar_Name <$> elems env' = EnvVar_Name <$> elems env).
Proof.
  induction pending as [|x pending IH]; intros env p Henv update.
  - split.
    + intros _. simpl. by rewrite andb_true_r.
    + intros Hex. by apply Exists_nil in Hex.
  - assert (elems env !! length p = Some x) as Hx
      by (rewrite Henv; by apply list_lookup_middle).
    specialize (IH env (p ++ [x])). rewrite length_app, Nat.add_1_r, <- app_assoc in IH.
    simpl in IH. specialize (IH Henv).
    rewrite <- (flag_after_entry "CONFIG_REDIS_ASYNC" update x pending).
    cbn [WorkerEnv_loop]. unfold set_Value_at. rewrite Hx.
    destruct (decide (EnvVar_Name x = "CONFIG_REDIS_ASYNC")) as [Hname|Hname].
    + destruct (decide (EnvVar_Value x = from)) as [Hvalue|Hvalue].
      * split; [intros [Hhead _]%Forall_cons; by destruct Hhead|].
        intros _. eexists. split; [reflexivity|]. by apply names_insert_value.
      * split.
        -- intros [_ Htail]%Forall_cons. by apply IH.
        -- intros [[_ ?]|Htail]%Exists_cons; [done|]. by apply IH.
    + split.
      * intros [_ Htail]%Forall_cons. by apply IH.
      * intros [[? _]|Htail]%Exists_cons; [done|]. by apply IH.
Qed.

Lemma WorkerEnvMutator_settles from to desired existing c0 :
  Spec_Template_Spec_Containers existing !! 0 = Some c0 →
  ∃ existing' changed,
    WorkerEnvMutator from to desired existing = Returned existing' changed None
    ∧ (changed = false ↔ settled_worker from (elems (Container_Env c0)))
    ∧ (changed = false → existing' = existing).
Proof.
  intros Hc0. unfold WorkerEnvMutator. rewrite Hc0.
  destruct (WorkerEnv_loop_spec from to (elems (Container_Env c0)) (Container_Env c0) []
              eq_refl true) as [Hdone Hret].
  simpl in Hdone, Hret.
  destruct (decide (Exists (λ e, EnvVar_Name e = "CONFIG_REDIS_ASYNC"
                                 ∧ EnvVar_Value e = from)
                      (elems (Container_Env c0))))
    as [Hex|Hnone].
  - destruct (Hret Hex) as (env & -> & _).
    eexists _, true. split; [done|]. split; [|done]. split; [done|].
    intros [_ Hall]. apply Exists_exists in Hex as (e & He & Hname & Hvalue).
    by destruct (Hall e He Hname).
  - rewrite Hdone by (by apply not_Exists_Forall_not).
    destruct (bool_decide ("CONFIG_REDIS_ASYNC" ∉ EnvVar_Name <$> elems (Container_Env c0)))
      eqn:HCRA.
    + apply bool_decide_eq_true in HCRA.
      eexists _, true. split; [done|]. split; [|done]. split; [done|]. by intros [? _].
    + apply bool_decide_eq_false, dec_stable in HCRA.
      eexists _, false. split; [done|]. split; [|done]. split; [|done].
      intros _. split; [done|]. intros e He Hname Hvalue.
      apply Hnone, Exists_exists. by exists e.
Qed.

(** X6.  On a Deployment with a first container [c0], each worker env
    mutator never panics and never returns an error; it reports
    [changed = false] exactly when CONFIG_REDIS_ASYNC is in the environment
    of [c0] and no entry of that name has the value the mutator replaces
    ("0" for [DeploymentWorkerEnvMutator], "1" for
    [DeploymentWorkerDisableAsyncEnvMutator]); and then it leaves existing
    as it is. *)
Theorem worker_env_mutators_settle desired existing c0 :
  Spec_Template_Spec_Containers existing !! 0 = Some c0 →
  (∃ existing' changed,
     DeploymentWorkerEnvMutator desired existing = Returned existing' changed None
     ∧ (changed = false ↔ settled_worker "0" (elems (Container_Env c0)))
     ∧ (changed = false → existing' = existing))
  ∧ (∃ existing' changed,
       DeploymentWorkerDisableAsyncEnvMutator desired existing
       = Returned existing' changed None
       ∧ (changed = false ↔ settled_worker "1" (elems (Container_Env c0)))
       ∧ (changed = false → existing' = existing)).
Proof.
  intros Hc0. split; by apply WorkerEnvMutator_settles.
Qed.

(** ** More mutators that report no change have made none *)

Lemma DeploymentListenerEnvMutator_quiet : quiet DeploymentListenerEnvMutator.
Proof.
  intros desired existing existing' Hrun.
  destruct (Spec_Template_Spec_Containers existing !! 0) as [c0|] eqn:Hc0.
  - destruct (DeploymentListenerEnvMutator_result desired existing c0 Hc0)
      as (env & changed & Hrun' & _ & Hsame & _).
    rewrite Hrun' in Hrun. injection Hrun as <- ->.
    rewrite (Hsame eq_refl). by apply store_Env_same.
  - unfold DeploymentListenerEnvMutator in Hrun. by rewrite Hc0 in Hrun.
Qed.

Lemma DeploymentListenerAsyncDisableEnvMutator_quiet :
  quiet DeploymentListenerAsyncDisableEnvMutator.
Proof.
  intros desired existing existing' Hrun.
  destruct (Spec_Template_Spec_Containers existing !! 0) as [c0|] eqn:Hc0.
  - destruct (DeploymentListenerAsyncDisableEnvMutator_fixed desired existing c0 Hc0)
      as (result & changed & Hrun' & _ & Hsame).
    rewrite Hrun' in Hrun. injection Hrun as <- ->. by apply Hsame.
  - unfold DeploymentListenerAsyncDisableEnvMutator in Hrun. by rewrite Hc0 in Hrun.
Qed.

Lemma WorkerEnvMutator_quiet from to : quiet (WorkerEnvMutator from to).
Proof.
  intros desired existing existing' Hrun.
  destruct (Spec_Template_Spec_Containers existing !! 0) as [c0|] eqn:Hc0.
  - destruct (WorkerEnvMutator_settles from to desired existing c0 Hc0)
      as (result & changed & Hrun' & _ & Hsame).
    rewrite Hrun' in Hrun. injection Hrun as <- ->. by apply Hsame.
  - unfold WorkerEnvMutator in Hrun. by rewrite Hc0 in Hrun.
Qed.

Lemma removeVolumes_unmodified names :
  ∀ volumes volumeModified,
    (removeVolumes names volumes volumeModified).2 = false →
    (removeVolumes names volumes volumeModified).1 = volumes ∧ volumeModified = false.
Proof.
  induction names as [|name names IH]; intros volumes modified; simpl; [done|].
  pose proof (removeFirstNamed_not_found Volume_Name name volumes) as Hsame.
  destruct (removeFirstNamed Volume_Name name volumes) as [volumes1 found].
  simpl in Hsame. intros Hflag. destruct (IH _ _ Hflag) as [-> Hfound].
  destruct found; [done|]. by rewrite Hsame.
Qed.

Lemma DeploymentRemoveTLSVolumesAndMountsMutator_quiet :
  quiet DeploymentRemoveTLSVolumesAndMountsMutator.
Proof.
  intros desired existing existing'. unfold DeploymentRemoveTLSVolumesAndMountsMutator.
  destruct (Spec_Template_Spec_Volumes existing) as [volumes|] eqn:Hvolumes;
    [|by intros [= <-]].
  pose proof (removeVolumes_unmodified volumeNamesToRemove volumes false) as Hsame.
  destruct (removeVolumes volumeNamesToRemove volumes false) as [volumes' [|]].
  - destruct (for_range _ _ _ _); [|done]. by destruct (for_range _ _ _ _).
  - destruct (Hsame eq_refl) as [Heq _]. simpl in Heq. subst volumes'.
    intros [= <-]. by apply set_Volumes_same.
Qed.

(** X7.  Each of these mutators, when it returns [changed = false] and a
    nil error, has left existing exactly as it was; so has
    [DeploymentContainerResourcesMutator] for every [helper.CmpResources] and
    [DeploymentRemoveDuplicateEnvVarMutator] for every
    [helper.RemoveDuplicateEnvVars]. *)
Theorem mutators_quiet :
  Forall quiet
    [DeploymentArgsMutator; DeploymentProbesMutator;
     DeploymentPodContainerImageMutator; DeploymentPodInitContainerImageMutator;
     DeploymentPodInitContainerMutator; DeploymentPriorityClassMutator;
     DeploymentListenerArgsMutator; DeploymentListenerAsyncDisableArgsMutator;
     DeploymentListenerEnvMutator; DeploymentListenerAsyncDisableEnvMutator;
     DeploymentWorkerEnvMutator; DeploymentWorkerDisableAsyncEnvMutator;
     DeploymentRemoveTLSVolumesAndMountsMutator]
  ∧ (∀ info cmp, quiet (DeploymentContainerResourcesMutator info cmp))
  ∧ (∀ prune, quiet (DeploymentRemoveDuplicateEnvVarMutator prune)).
Proof.
  split; [|split].
  - repeat apply Forall_cons_2; [..|apply Forall_nil_2].
    + apply DeploymentArgsMutator_quiet.
    + apply DeploymentProbesMutator_quiet.
    + apply DeploymentPodContainerImageMutator_quiet.
    + apply DeploymentPodInitContainerImageMutator_quiet.
    + apply DeploymentPodInitContainerMutator_quiet.
    + apply DeploymentPriorityClassMutator_quiet.
    + apply DeploymentListenerArgsMutator_quiet.
    + apply DeploymentListenerAsyncDisableArgsMutator_quiet.
    + apply DeploymentListenerEnvMutator_quiet.
    + apply DeploymentListenerAsyncDisableEnvMutator_quiet.
    + apply WorkerEnvMutator_quiet.
    + apply WorkerEnvMutator_quiet.
    + apply DeploymentRemoveTLSVolumesAndMountsMutator_quiet.
  - apply DeploymentContainerResourcesMutator_quiet.
  - apply DeploymentRemoveDuplicateEnvVarMutator_quiet.
Qed.

(** ** Loops that replace one field of each container *)

Lemma differs_somewhere_cons (differs : Container → Container → Prop) d ds e es :
  differs_somewhere differs (d :: ds) (e :: es)
  ↔ differs d e ∨ differs_somewhere differs ds es.
Proof.
  split.
  - intros ([|i] & d' & e' & Hd & He & Hdiff); simpl in Hd, He.
    + left. congruence.
    + right. by exists i, d', e'.
  - intros [Hdiff|(i & d' & e' & Hd & He & Hdiff)].
    + by exists 0, d, e.
    + by exists (S i), d', e'.
Qed.

Lemma differs_somewhere_nil (differs : Container → Container → Prop) es :
  ¬ differs_somewhere differs [] es.
Proof. by intros (i & d & e & Hd & _). Qed.

Section ReplaceLoop.

Variable body : nat → Container → list Container * bool → option (list Container * bool).
Variable upd : Container → Container → Container.
Variable differs : Container → Container → Prop.
Context `{∀ d e, Decision (differs d e)}.
Hypothesis body_spec :
  ∀ i d containers updated,
    body i d (containers, updated)
    = match containers !! i with
      | None => None
      | Some e =>
          Some (<[i := upd d e]> containers, if decide (differs d e) then true else updated)
      end.
Hypothesis upd_fixes : ∀ d e, ¬ differs d (upd d e).
Hypothesis upd_same : ∀ d e, ¬ differs d e → upd d e = e.

Lemma replace_loop ds :
  ∀ p es updated,
    length ds ≤ length es →
    ∃ updated',
      for_range (length p) ds body (p ++ es, updated)
      = Some (p ++ overlay upd ds es, updated')
      ∧ (updated' = true ↔ updated = true ∨ differs_somewhere differs ds es).
Proof.
  induction ds as [|d ds IH]; intros p es updated Hlen.
  - exists updated. split; [done|]. split; [by left|].
    intros [?|Hdiff]; [done|]. by apply differs_somewhere_nil in Hdiff.
  - destruct es as [|e es]; [simpl in Hlen; lia|].
    rewrite for_range_cons, body_spec, list_lookup_middle by done.
    rewrite insert_at_length.
    destruct (IH (p ++ [upd d e]) es (if decide (differs d e) then true else updated))
      as (updated' & Hloop & Hflag); [simpl in Hlen; lia|].
    rewrite length_app, Nat.add_1_r, <- !app_assoc in Hloop. simpl in Hloop.
    exists updated'. cbn [overlay]. split; [done|].
    rewrite Hflag, differs_somewhere_cons. case_decide; naive_solver.
Qed.

Lemma overlay_fixed ds :
  ∀ es,
    ¬ differs_somewhere differs ds (overlay upd ds es)
    ∧ overlay upd ds (overlay upd ds es) = overlay upd ds es
    ∧ length (overlay upd ds es) = length es.
Proof.
  induction ds as [|d ds IH]; intros es.
  - split; [apply differs_somewhere_nil|done].
  - destruct es as [|e es]; simpl.
    + split; [|done]. by intros (i & d' & e' & _ & He & _).
    + destruct (IH es) as (Hnone & Hsame & Hlen).
      rewrite differs_somewhere_cons, Hsame, Hlen.
      split; [|by rewrite (upd_same d (upd d e)) by apply upd_fixes].
      intros [Hdiff|Hdiff]; [by apply upd_fixes in Hdiff|done].
Qed.

Lemma replace_loop_twice ds es :
  length ds ≤ length es →
  ∃ updated,
    for_range 0 ds body (es, false) = Some (overlay upd ds es, updated)
    ∧ (updated = true ↔ differs_somewhere differs ds es)
    ∧ for_range 0 ds body (overlay upd ds es, false) = Some (overlay upd ds es, false).
Proof.
  intros Hlen.
  destruct (replace_loop ds [] es false Hlen) as (updated & Hloop & Hflag).
  destruct (overlay_fixed ds es) as (Hnone & Hsame & Hlen').
  destruct (replace_loop ds [] (overlay upd ds es) false) as (updated' & Hloop' & Hflag');
    [lia|].
  simpl in Hloop, Hloop'. rewrite Hsame in Hloop'.
  exists updated. split; [done|]. split; [naive_solver|].
  destruct updated'; [|done]. destruct Hflag' as [[?|?] _]; done.
Qed.

End ReplaceLoop.

Lemma set_Args_same c : set_Args (Container_Args c) c = c.
Proof. by destruct c. Qed.

Lemma set_Image_same c : set_Image (Container_Image c) c = c.
Proof. by destruct c. Qed.

Lemma set_LivenessProbe_same c : set_LivenessProbe (Container_LivenessProbe c) c = c.
Proof. by destruct c. Qed.

Lemma set_ReadinessProbe_same c : set_ReadinessProbe (Container_ReadinessProbe c) c = c.
Proof. by destruct c. Qed.

Lemma ArgsMutator_at_spec i d containers updated :
  ArgsMutator_at i d (containers, updated)
  = match containers !! i with
    | None => None
    | Some e =>
        Some (<[i := set_Args (Container_Args d) e]> containers,
              if decide (Container_Args e ≠ Container_Args d) then true else updated)
    end.
Proof.
  unfold ArgsMutator_at. destruct (containers !! i) as [e|] eqn:He; [|done].
  case_decide as Hdiff; [done|].
  by rewrite <- Hdiff, set_Args_same, list_insert_id.
Qed.

Lemma PodContainerImageMutator_at_spec i d containers updated :
  PodContainerImageMutator_at i d (containers, updated)
  = match containers !! i with
    | None => None
    | Some e =>
        Some (<[i := set_Image (Container_Image d) e]> containers,
              if decide (Container_Image e ≠ Container_Image d) then true else updated)
    end.
Proof.
  unfold PodContainerImageMutator_at. destruct (containers !! i) as [e|] eqn:He; [|done].
  case_decide as Hdiff; [done|].
  by rewrite <- Hdiff, set_Image_same, list_insert_id.
Qed.

Lemma ProbesMutator_at_spec i d containers updated :
  ProbesMutator_at i d (containers, updated)
  = match containers !! i with
    | None => None
    | Some e =>
        Some (<[i := set_ReadinessProbe (Container_ReadinessProbe d)
                        (set_LivenessProbe (Container_LivenessProbe d) e)]> containers,
              if decide (Container_LivenessProbe e ≠ Container_LivenessProbe d
                         ∨ Container_ReadinessProbe e ≠ Container_ReadinessProbe d)
              then true else updated)
    end.
Proof.
  unfold ProbesMutator_at. destruct (containers !! i) as [e|] eqn:He; [|done].
  destruct (decide (Container_LivenessProbe e ≠ Container_LivenessProbe d))
    as [Hlive|Hlive]; cbn beta iota;
    destruct (decide (Container_ReadinessProbe _ ≠ Container_ReadinessProbe d))
      as [Hready|Hready]; cbn beta iota.
  - by rewrite decide_True by by left.
  - rewrite decide_True by by left. apply dec_stable in Hready.
    by rewrite <- Hready, set_ReadinessProbe_same.
  - rewrite decide_True by by right. apply dec_stable in Hlive.
    by rewrite <- Hlive, set_LivenessProbe_same.
  - rewrite decide_False by naive_solver. apply dec_stable in Hlive, Hready.
    by rewrite <- Hlive, set_LivenessProbe_same, <- Hready, set_ReadinessProbe_same.
Qed.

(** X8.  When existing has at least as many containers as desired,
    [DeploymentArgsMutator] returns a nil error and leaves every container
    that has a desired container at its index with the args of that one,
    everything else being as it was; [changed] is true exactly when some
    such container had other args, nil args and empty args being different
    ones as they are for [reflect.DeepEqual]; and a second call on the
    result changes nothing and returns [changed = false]. *)
Theorem DeploymentArgsMutator_converges desired existing :
  length (Spec_Template_Spec_Containers desired)
    ≤ length (Spec_Template_Spec_Containers existing) →
  ∃ changed,
    let existing' :=
      set_Containers
        (overlay (λ d e, set_Args (Container_Args d) e)
           (Spec_Template_Spec_Containers desired)
           (Spec_Template_Spec_Containers existing)) existing in
    DeploymentArgsMutator desired existing = Returned existing' changed None
    ∧ (changed = true
       ↔ differs_somewhere (λ d e, Container_Args e ≠ Container_Args d)
           (Spec_Template_Spec_Containers desired)
           (Spec_Template_Spec_Containers existing))
    ∧ DeploymentArgsMutator desired existing' = Returned existing' false None.
Proof.
  intros Hlen.
  destruct (replace_loop_twice ArgsMutator_at (λ d e, set_Args (Container_Args d) e)
              (λ d e, Container_Args e ≠ Container_Args d) ArgsMutator_at_spec)
    with (ds := Spec_Template_Spec_Containers desired)
         (es := Spec_Template_Spec_Containers existing)
    as (changed & Hrun & Hchanged & Hagain).
  - intros d e Hdiff. by apply Hdiff.
  - intros d e Hsame%dec_stable. by rewrite <- Hsame, set_Args_same.
  - done.
  - exists changed. unfold DeploymentArgsMutator. simpl.
    rewrite Hrun, Hagain. done.
Qed.

(** X9.  The same for [DeploymentPodContainerImageMutator] and the image of
    each container. *)
Theorem DeploymentPodContainerImageMutator_converges desired existing :
  length (Spec_Template_Spec_Containers desired)
    ≤ length (Spec_Template_Spec_Containers existing) →
  ∃ changed,
    let existing' :=
      set_Containers
        (overlay (λ d e, set_Image (Container_Image d) e)
           (Spec_Template_Spec_Containers desired)
           (Spec_Template_Spec_Containers existing)) existing in
    DeploymentPodContainerImageMutator desired existing = Returned existing' changed None
    ∧ (changed = true
       ↔ differs_somewhere (λ d e, Container_Image e ≠ Container_Image d)
           (Spec_Template_Spec_Containers desired)
           (Spec_Template_Spec_Containers existing))
    ∧ DeploymentPodContainerImageMutator desired existing'
      = Returned existing' false None.
Proof.
  intros Hlen.
  destruct (replace_loop_twice PodContainerImageMutator_at
              (λ d e, set_Image (Container_Image d) e)
              (λ d e, Container_Image e ≠ Container_Image d)
              PodContainerImageMutator_at_spec)
    with (ds := Spec_Template_Spec_Containers desired)
         (es := Spec_Template_Spec_Containers existing)
    as (changed & Hrun & Hchanged & Hagain).
  - intros d e Hdiff. by apply Hdiff.
  - intros d e Hsame%dec_stable. by rewrite <- Hsame, set_Image_same.
  - done.
  - exists changed. unfold DeploymentPodContainerImageMutator. simpl.
    rewrite Hrun, Hagain. done.
Qed.

(** X10.  The same for [DeploymentProbesMutator] and the liveness and
    readiness probes of each container: both become those of the desired
    container at the same index, and [changed] is true exactly when one of
    the two differed somewhere. *)
Theorem DeploymentProbesMutator_converges desired existing :
  length (Spec_Template_Spec_Containers desired)
    ≤ length (Spec_Template_Spec_Containers existing) →
  ∃ changed,
    let existing' :=
      set_Containers
        (overlay
           (λ d e, set_ReadinessProbe (Container_ReadinessProbe d)
                     (set_LivenessProbe (Container_LivenessProbe d) e))
           (Spec_Template_Spec_Containers desired)
           (Spec_Template_Spec_Containers existing)) existing in
    DeploymentProbesMutator desired existing = Returned existing' changed None
    ∧ (changed = true
       ↔ differs_somewhere
           (λ d e, Container_LivenessProbe e ≠ Container_LivenessProbe d
                   ∨ Container_ReadinessProbe e ≠ Container_ReadinessProbe d)
           (Spec_Template_Spec_Containers desired)
           (Spec_Template_Spec_Containers existing))
    ∧ DeploymentProbesMutator desired existing' = Returned existing' false None.
Proof.
  intros Hlen.
  destruct (replace_loop_twice ProbesMutator_at
              (λ d e, set_ReadinessProbe (Container_ReadinessProbe d)
                        (set_LivenessProbe (Container_LivenessProbe d) e))
              (λ d e, Container_LivenessProbe e ≠ Container_LivenessProbe d
                      ∨ Container_ReadinessProbe e ≠ Container_ReadinessProbe d)
              ProbesMutator_at_spec)
    with (ds := Spec_Template_Spec_Containers desired)
         (es := Spec_Template_Spec_Containers existing)
    as (changed & Hrun & Hchanged & Hagain).
  - intros d e [Hdiff|Hdiff]; by apply Hdiff.
  - intros d e Hsame.
    assert (Container_LivenessProbe e = Container_LivenessProbe d) as Hlive.
    { apply dec_stable. intros Hne. apply Hsame. by left. }
    assert (Container_ReadinessProbe e = Container_ReadinessProbe d) as Hready.
    { apply dec_stable. intros Hne. apply Hsame. by right. }
    by rewrite <- Hlive, set_LivenessProbe_same, <- Hready, set_ReadinessProbe_same.
  - done.
  - exists changed. unfold DeploymentProbesMutator. simpl.
    rewrite Hrun, Hagain. done.
Qed.

(** ** Init-container images *)

Lemma overlay_append_nil upd ds : overlay_append upd ds [] = ds.
Proof. by destruct ds. Qed.

Lemma PodInitContainerImageMutator_loop ds :
  ∀ (p es : list Container) (updated : bool),
    ∃ updated',
      for_range (length p) ds PodInitContainerImageMutator_at (p ++ es, updated)
      = Some (p ++ overlay_append (λ d e, set_Image (Container_Image d) e) ds es,
              updated')
      ∧ (updated' = true
         ↔ updated = true ∨ length es < length ds
           ∨ differs_somewhere (λ d e, Container_Image e ≠ Container_Image d) ds es).
Proof.
  induction ds as [|d ds IH]; intros p es updated.
  - exists updated. split; [by destruct es|]. split; [by left|].
    intros [?|[Hlen|Hdiff]]; [done|simpl in Hlen; lia|].
    by apply differs_somewhere_nil in Hdiff.
  - rewrite for_range_cons. unfold PodInitContainerImageMutator_at at 1.
    destruct es as [|e es].
    + rewrite decide_True by (rewrite app_nil_r; lia). rewrite app_nil_r.
      destruct (IH (p ++ [d]) [] true) as (updated' & Hloop & Hflag).
      rewrite length_app, Nat.add_1_r, app_nil_r, overlay_append_nil in Hloop.
      rewrite <- app_assoc in Hloop. simpl in Hloop.
      exists updated'. split; [done|]. split; [|intros _; apply Hflag; by left].
      intros _. right. left. simpl. lia.
    + rewrite decide_False by (rewrite length_app; simpl; lia).
      rewrite list_lookup_middle by done.
      destruct (decide (Container_Image e ≠ Container_Image d)) as [Hne|Heq].
      * rewrite insert_at_length.
        destruct (IH (p ++ [set_Image (Container_Image d) e]) es true)
          as (updated' & Hloop & Hflag).
        rewrite length_app, Nat.add_1_r, <- !app_assoc in Hloop. simpl in Hloop.
        exists updated'. cbn [overlay_append]. split; [done|].
        split; [|intros _; apply Hflag; by left].
        intros _. right. right. apply differs_somewhere_cons. by left.
      * apply dec_stable in Heq.
        destruct (IH (p ++ [e]) es updated) as (updated' & Hloop & Hflag).
        rewrite length_app, Nat.add_1_r, <- !app_assoc in Hloop. simpl in Hloop.
        exists updated'. cbn [overlay_append].
        rewrite <- Heq, set_Image_same. split; [done|].
        rewrite Hflag, differs_somewhere_cons. simpl.
        split; [intros [?|[?|?]]; [by left|right; left; lia|by right; right; right]|].
        intros [?|[?|[?|?]]]; [by left|right; left; lia|congruence|by right; right].
Qed.

Lemma overlay_append_fixed ds :
  ∀ es,
    let es' := overlay_append (λ d e, set_Image (Container_Image d) e) ds es in
    overlay_append (λ d e, set_Image (Container_Image d) e) ds es' = es'
    ∧ length ds ≤ length es'
    ∧ ¬ differs_somewhere (λ d e, Container_Image e ≠ Container_Image d) ds es'.
Proof.
  induction ds as [|d ds IH]; intros es.
  - split; [by destruct es|]. split; [simpl; lia|apply differs_somewhere_nil].
  - destruct es as [|e es]; cbn [overlay_append].
    + destruct (IH []) as (Hsame & Hlen & Hnone). rewrite overlay_append_nil in *.
      rewrite set_Image_same, Hsame. split; [done|]. split; [done|].
      rewrite differs_somewhere_cons. by intros [?|?].
    + destruct (IH es) as (Hsame & Hlen & Hnone). simpl in Hsame, Hlen, Hnone.
      rewrite Hsame. simpl. split; [done|]. split; [lia|].
      rewrite differs_somewhere_cons. by intros [?|?].
Qed.

(** X11.  [DeploymentPodInitContainerImageMutator] never panics and never
    returns an error.  It leaves each init container that has a desired one
    at its index with the image of that one, appends the desired init
    containers for which existing has none, and keeps the existing ones
    beyond desired's count; [changed] is true exactly when existing had
    fewer init containers than desired or an image differed; and a second
    call on the result changes nothing and returns [changed = false]. *)
Theorem DeploymentPodInitContainerImageMutator_converges desired existing :
  ∃ changed,
    let existing' :=
      set_InitContainers
        (overlay_append (λ d e, set_Image (Container_Image d) e)
           (Spec_Template_Spec_InitContainers desired)
           (Spec_Template_Spec_InitContainers existing)) existing in
    DeploymentPodInitContainerImageMutator desired existing
    = Returned existing' changed None
    ∧ (changed = true
       ↔ length (Spec_Template_Spec_InitContainers existing)
           < length (Spec_Template_Spec_InitContainers desired)
         ∨ differs_somewhere (λ d e, Container_Image e ≠ Container_Image d)
             (Spec_Template_Spec_InitContainers desired)
             (Spec_Template_Spec_InitContainers existing))
    ∧ DeploymentPodInitContainerImageMutator desired existing'
      = Returned existing' false None.
Proof.
  set (ds := Spec_Template_Spec_InitContainers desired).
  set (es := Spec_Template_Spec_InitContainers existing).
  destruct (PodInitContainerImageMutator_loop ds [] es false)
    as (changed & Hrun & Hchanged).
  destruct (overlay_append_fixed ds es) as (Hsame & Hlen & Hnone).
  destruct (PodInitContainerImageMutator_loop ds []
              (overlay_append (λ d e, set_Image (Container_Image d) e) ds es) false)
    as (again & Hagain & Hflag).
  simpl in Hrun, Hagain, Hsame, Hlen, Hnone. rewrite Hsame in Hagain.
  exists changed. unfold DeploymentPodInitContainerImageMutator.
  fold ds es. simpl. fold ds. rewrite Hrun, Hagain.
  split; [done|]. split; [rewrite Hchanged; naive_solver|].
  destruct again; [|done]. destruct Hflag as [[?|[?|?]] _]; (done || lia).
Qed.

(** ** Second calls *)

Lemma DeploymentPodInitContainerMutator_run desired existing :
  ∃ changed,
    DeploymentPodInitContainerMutator desired existing
    = Returned (set_InitContainers (Spec_Template_Spec_InitContainers desired) existing)
        changed None
    ∧ (changed = true
       ↔ Spec_Template_Spec_InitContainers existing
         ≠ Spec_Template_Spec_InitContainers desired).
Proof.
  unfold DeploymentPodInitContainerMutator.
  set (ds := Spec_Template_Spec_InitContainers desired).
  set (es := Spec_Template_Spec_InitContainers existing).
  destruct (decide (length ds < length es)) as [Hlt|Hge].
  - destruct (PodInitContainerMutator_loop ds [] (take (length ds) es) true)
      as (changed & Hloop & Hchanged); [rewrite length_take; lia|].
    simpl in Hloop. rewrite Hloop. exists changed. split; [done|].
    split; [|intros _; apply Hchanged; by left].
    intros _ Heq. rewrite Heq in Hlt. lia.
  - destruct (PodInitContainerMutator_loop ds [] es false)
      as (changed & Hloop & Hchanged); [lia|].
    simpl in Hloop. rewrite Hloop. exists changed. split; [done|].
    rewrite Hchanged. split; [by intros [?|?]|by right].
Qed.

(** X12.  [DeploymentPodInitContainerMutator] is idempotent: called again on
    what it left, with the same desired, it changes nothing and returns
    [changed = false]. *)
Theorem DeploymentPodInitContainerMutator_idempotent desired existing existing'
    changed err :
  DeploymentPodInitContainerMutator desired existing = Returned existing' changed err →
  DeploymentPodInitContainerMutator desired existing' = Returned existing' false None.
Proof.
  destruct (DeploymentPodInitContainerMutator_run desired existing)
    as (changed1 & -> & _).
  intros [= <- _ _].
  destruct (DeploymentPodInitContainerMutator_run desired
              (set_InitContainers (Spec_Template_Spec_InitContainers desired) existing))
    as (changed2 & -> & Hchanged).
  simpl in Hchanged. destruct changed2; [|done].
  by destruct (proj1 Hchanged eq_refl).
Qed.

Lemma addMissingVolumes_present desiredVolumes :
  ∀ volumes changed,
    Volume_Name <$> desiredVolumes ⊆ Volume_Name <$> volumes →
    addMissingVolumes desiredVolumes volumes changed = (volumes, changed).
Proof.
  induction desiredVolumes as [|d ds IH]; intros volumes changed Hin; [done|].
  simpl. rewrite (proj2 (volumeExists_spec volumes (Volume_Name d))).
  - simpl. apply IH. intros name Hname. apply Hin. rewrite fmap_cons.
    by apply list_elem_of_further.
  - apply Hin. rewrite fmap_cons. apply list_elem_of_here.
Qed.

Lemma syncVolumeMounts_loop_present existingMounts desiredMounts :
  ∀ changed newVolumeMounts,
    VolumeMount_Name <$> desiredMounts ⊆ VolumeMount_Name <$> existingMounts →
    syncVolumeMounts_loop existingMounts desiredMounts changed newVolumeMounts
    = (changed, newVolumeMounts).
Proof.
  induction desiredMounts as [|d ds IH]; intros changed new Hin; [done|].
  simpl. rewrite (proj2 (volumeMountExists_spec existingMounts (VolumeMount_Name d))).
  - simpl. apply IH. intros name Hname. apply Hin. rewrite fmap_cons.
    by apply list_elem_of_further.
  - apply Hin. rewrite fmap_cons. apply list_elem_of_here.
Qed.

Lemma syncVolumeMounts_range_present desiredContainers l :
  ∀ p changed,
    (∀ i e, l !! i = Some e →
       ∃ d, desiredContainers !! (length p + i) = Some d
            ∧ mount_names d ⊆ mount_names e) →
    for_range (length p) l (syncVolumeMounts_at desiredContainers) (p ++ l, changed)
    = Some (p ++ l, changed).
Proof.
  induction l as [|x l IH]; intros p changed Hall; [done|].
  rewrite for_range_cons. unfold syncVolumeMounts_at at 1.
  rewrite list_lookup_middle by done.
  destruct (Hall 0 x eq_refl) as (d & Hd & Hnames). rewrite Nat.add_0_r in Hd.
  rewrite Hd. unfold syncVolumeMounts.
  rewrite syncVolumeMounts_loop_present by done.
  rewrite (cons_middle x p l), app_assoc.
  replace (S (length p)) with (length (p ++ [x])) by (rewrite length_app; simpl; lia).
  apply IH. intros i e Hi. destruct (Hall (S i) e Hi) as (d' & Hd' & Hnames').
  exists d'. split; [|done]. rewrite length_app. simpl.
  by replace (length p + 1 + i) with (length p + S i) by lia.
Qed.

Lemma mounts_additive_present desiredContainers before after changed :
  mounts_additive desiredContainers before after →
  for_range 0 after (syncVolumeMounts_at desiredContainers) (after, changed)
  = Some (after, changed).
Proof.
  intros [Hlen Hall].
  apply (syncVolumeMounts_range_present desiredContainers after []).
  intros i e' Hi. simpl.
  destruct (lookup_lt_is_Some_2 before i) as [e He].
  { rewrite <- Hlen. by eapply lookup_lt_Some. }
  destruct (Hall i e He) as (e'' & d & He'' & Hd & _ & Hnames).
  exists d. split; [done|]. assert (e'' = e') as -> by congruence. done.
Qed.

(** X13.  [DeploymentSyncVolumesAndMountsMutator] is idempotent: whenever it
    returns, a second call on what it left, with the same desired, changes
    nothing and returns [changed = false]. *)
Theorem DeploymentSyncVolumesAndMountsMutator_idempotent desired existing existing'
    changed err :
  DeploymentSyncVolumesAndMountsMutator desired existing = Returned existing' changed err →
  DeploymentSyncVolumesAndMountsMutator desired existing' = Returned existing' false None.
Proof.
  unfold DeploymentSyncVolumesAndMountsMutator at 1.
  set (volumes0 := match Spec_Template_Spec_Volumes existing with
                   | Some volumes => volumes
                   | None => []
                   end).
  destruct (addMissingVolumes_spec (elems (Spec_Template_Spec_Volumes desired))
              volumes0 false) as [_ Hadd].
  destruct (addMissingVolumes _ _ _) as [volumes changed0]. simpl in Hadd.
  destruct (for_range 0 (Spec_Template_Spec_Containers existing) _ _)
    as [[containers changed1]|] eqn:Hcontainers; [|done].
  destruct (for_range 0 (Spec_Template_Spec_InitContainers existing) _ _)
    as [[initContainers changed2]|] eqn:HinitContainers; [|done].
  intros [= <- _ _].
  apply syncVolumeMounts_range_additive in Hcontainers, HinitContainers.
  unfold DeploymentSyncVolumesAndMountsMutator. simpl.
  rewrite addMissingVolumes_present by done.
  rewrite (mounts_additive_present _ _ _ false Hcontainers).
  by rewrite (mounts_additive_present _ _ _ false HinitContainers).
Qed.

(** ** Volume sync: what is appended *)

Lemma addMissingVolumes_NoDup desiredVolumes :
  ∀ volumes changed,
    NoDup (Volume_Name <$> volumes) →
    NoDup (Volume_Name <$> (addMissingVolumes desiredVolumes volumes changed).1).
Proof.
  induction desiredVolumes as [|d ds IH]; intros volumes changed Hnodup; [done|].
  simpl. destruct (volumeExists volumes (Volume_Name d)) eqn:Hexists; simpl.
  - by apply IH.
  - apply IH. rewrite fmap_app. apply NoDup_app. split; [done|]. split.
    + intros name Hname [->|[]%elem_of_nil]%elem_of_cons.
      apply volumeExists_spec in Hname. congruence.
    + apply NoDup_singleton.
Qed.

(** X14.  [DeploymentSyncVolumesAndMountsMutator] keeps volume names unique:
    when no two volumes of existing share a name, no two volumes of the
    result do, whatever desired holds (a name repeated in desired is added
    once). *)
Theorem DeploymentSyncVolumesAndMountsMutator_unique_names desired existing existing'
    changed err :
  NoDup (volume_names existing) →
  DeploymentSyncVolumesAndMountsMutator desired existing = Returned existing' changed err →
  NoDup (volume_names existing').
Proof.
  intros Hnodup. unfold DeploymentSyncVolumesAndMountsMutator.
  set (volumes0 := match Spec_Template_Spec_Volumes existing with
                   | Some volumes => volumes
                   | None => []
                   end).
  assert (NoDup (Volume_Name <$> volumes0)) as Hnodup0.
  { unfold volume_names, elems in Hnodup. subst volumes0.
    by destruct (Spec_Template_Spec_Volumes existing). }
  pose proof (addMissingVolumes_NoDup (elems (Spec_Template_Spec_Volumes desired))
                volumes0 false Hnodup0) as Hresult.
  destruct (addMissingVolumes _ _ _) as [volumes changed0].
  destruct (for_range _ _ _ _) as [[containers changed1]|]; [|done].
  destruct (for_range _ _ _ _) as [[initContainers changed2]|]; [|done].
  by intros [= <- _ _].
Qed.

Lemma syncVolumeMounts_loop_exact existingMounts desiredMounts :
  ∀ changed newVolumeMounts,
    let missing :=
      filter (λ vm, VolumeMount_Name vm ∉ VolumeMount_Name <$> existingMounts)
        desiredMounts in
    syncVolumeMounts_loop existingMounts desiredMounts changed newVolumeMounts
    = (if decide (missing = []) then changed else true,
       if decide (missing = []) then newVolumeMounts
       else Some (elems newVolumeMounts ++ missing)).
Proof.
  induction desiredMounts as [|d ds IH]; intros changed new; simpl.
  - done.
  - rewrite filter_cons.
    destruct (decide (VolumeMount_Name d ∉ VolumeMount_Name <$> existingMounts))
      as [Hout|Hin].
    + destruct (volumeMountExists existingMounts (VolumeMount_Name d)) eqn:Hexists.
      { by apply volumeMountExists_spec in Hexists. }
      simpl. rewrite IH. simpl.
      destruct (decide (filter _ ds = [])) as [->|Hcons]; [done|].
      by rewrite <- app_assoc.
    + apply dec_stable, volumeMountExists_spec in Hin. rewrite Hin. simpl. apply IH.
Qed.

(** X15.  [syncVolumeMounts] returns the existing mounts followed by the
    desired mounts whose name no existing mount has, in the order of
    desired, and [true] exactly when there is such a mount; when there is
    none, what it returns is the existing slice itself, nil if that was nil.
    The test is against the existing mounts only: a missing name that desired
    repeats is appended as often as it occurs. *)
Theorem syncVolumeMounts_appends_missing existingMounts desiredMounts :
  let missing :=
    filter (λ vm, VolumeMount_Name vm ∉ VolumeMount_Name <$> elems existingMounts)
      (elems desiredMounts) in
  syncVolumeMounts existingMounts desiredMounts
  = (bool_decide (missing ≠ []),
     if decide (missing = []) then existingMounts
     else Some (elems existingMounts ++ missing)).
Proof.
  unfold syncVolumeMounts. rewrite syncVolumeMounts_loop_exact. simpl.
  destruct (decide (filter _ (elems desiredMounts) = [])) as [Hnil|Hcons].
  - by rewrite bool_decide_eq_false_2 by (intros Hne; by apply Hne).
  - by rewrite bool_decide_eq_true_2.
Qed.

(** ** removeEnvVar *)

Lemma removeEnvVar_loop_spec name envVars :
  ∀ newEnvVars,
    let kept := filter (λ e, EnvVar_Name e ≠ name) envVars in
    removeEnvVar_loop envVars name newEnvVars
    = if decide (kept = []) then newEnvVars else Some (elems newEnvVars ++ kept).
Proof.
  induction envVars as [|x envVars IH]; intros acc; simpl; [done|].
  rewrite filter_cons.
  destruct (decide (EnvVar_Name x ≠ name)) as [Hne|Heq].
  - rewrite IH. simpl.
    destruct (decide (filter _ envVars = [])) as [->|Hcons]; [done|].
    by rewrite <- app_assoc.
  - apply IH.
Qed.

Lemma removeEnvVar_filter envVars name :
  removeEnvVar envVars name
  = slice_of (filter (λ e, EnvVar_Name e ≠ name) (elems envVars)).
Proof.
  unfold removeEnvVar. rewrite removeEnvVar_loop_spec. simpl.
  by destruct (filter _ (elems envVars)).
Qed.

Lemma elems_slice_of {A} (l : list A) : elems (slice_of l) = l.
Proof. by destruct l. Qed.

Lemma filter_filter_same {A} (P : A → Prop) `{∀ x, Decision (P x)} (l : list A) :
  filter P (filter P l) = filter P l.
Proof.
  induction l as [|x l IH]; [done|].
  rewrite filter_cons. destruct (decide (P x)) as [HP|HP]; [|done].
  by rewrite filter_cons_True, IH.
Qed.

(** X16.  [removeEnvVar] keeps exactly the entries with another name, in
    their order: the result is a sublist of the argument, an entry is in it
    exactly when it is in the argument under another name, it is the nil
    slice exactly when no entry has another name, and removing the same name
    again changes nothing. *)
Theorem removeEnvVar_removes_all envVars name :
  elems (removeEnvVar envVars name) `sublist_of` elems envVars
  ∧ (∀ e, e ∈ elems (removeEnvVar envVars name)
          ↔ e ∈ elems envVars ∧ EnvVar_Name e ≠ name)
  ∧ (removeEnvVar envVars name = None
     ↔ ∀ e, e ∈ elems envVars → EnvVar_Name e = name)
  ∧ removeEnvVar (removeEnvVar envVars name) name = removeEnvVar envVars name.
Proof.
  rewrite !removeEnvVar_filter, !elems_slice_of, filter_filter_same.
  split; [apply sublist_filter|].
  split; [intros e; rewrite list_elem_of_filter; naive_solver|].
  split; [|done].
  induction (elems envVars) as [|x l IH]; simpl.
  - split; [|done]. intros _ e He. by apply elem_of_nil in He.
  - rewrite filter_cons. destruct (decide (EnvVar_Name x ≠ name)) as [Hne|Heq].
    + split; [done|]. intros Hall. destruct Hne. apply Hall, list_elem_of_here.
    + apply dec_stable in Heq. rewrite IH. split.
      * intros Hall e [->|He]%elem_of_cons; [done|by apply Hall].
      * intros Hall e He. by apply Hall, list_elem_of_further.
Qed.

(** ** TLS removal on any Deployment *)

Lemma filter_removeFirstNamed {A} (name_of : A → string) (P : A → Prop)
    `{∀ x, Decision (P x)} name (s : list A) :
  (∀ x, P x → name_of x ≠ name) →
  filter P (removeFirstNamed name_of name s).1 = filter P s.
Proof.
  intros Hother. induction s as [|x s IH]; [done|].
  rewrite removeFirstNamed_cons.
  destruct (decide (name_of x = name)) as [Heq|Hne]; simpl.
  - rewrite filter_cons_False; [done|]. intros HP. by apply (Hother x HP).
  - by rewrite !filter_cons, IH.
Qed.

Lemma filter_removeVolumes (P : Volume → Prop) `{∀ v, Decision (P v)} names :
  ∀ volumes volumeModified,
    (∀ v, P v → Volume_Name v ∉ names) →
    filter P (removeVolumes names volumes volumeModified).1 = filter P volumes.
Proof.
  induction names as [|name names IH]; intros volumes modified Hother; [done|].
  simpl.
  pose proof (filter_removeFirstNamed Volume_Name P name volumes) as Hkeep.
  destruct (removeFirstNamed Volume_Name name volumes) as [volumes1 found].
  simpl in Hkeep. rewrite IH, Hkeep; [done|..].
  - intros v HP Heq. apply (Hother v HP). rewrite Heq. apply list_elem_of_here.
  - intros v HP Hin. apply (Hother v HP). by apply list_elem_of_further.
Qed.

Lemma filter_removeMounts (P : VolumeMount → Prop) `{∀ vm, Decision (P vm)} names :
  ∀ volumeMounts,
    (∀ vm, P vm → VolumeMount_Name vm ∉ names) →
    filter P <$> removeMounts names volumeMounts = filter P <$> volumeMounts.
Proof.
  induction names as [|name names IH]; intros volumeMounts Hother; [done|].
  simpl.
  assert (∀ vm, P vm → VolumeMount_Name vm ≠ name) as Hname.
  { intros vm HP Heq. apply (Hother vm HP). rewrite Heq. apply list_elem_of_here. }
  assert (∀ vm, P vm → VolumeMount_Name vm ∉ names) as Hrest.
  { intros vm HP Hin. apply (Hother vm HP). by apply list_elem_of_further. }
  destruct volumeMounts as [mounts|]; cbn [elems from_option id].
  - pose proof (filter_removeFirstNamed VolumeMount_Name P name mounts Hname) as Hkeep.
    destruct (removeFirstNamed VolumeMount_Name name mounts) as [cut found].
    cbn [fst] in Hkeep. rewrite IH by done.
    destruct found; simpl; [by rewrite Hkeep|done].
  - cbn. by rewrite IH.
Qed.

Lemma removeVolumes_modified names :
  ∀ volumes volumeModified,
    (removeVolumes names volumes volumeModified).2 = true
    ↔ volumeModified = true ∨ ∃ v, v ∈ volumes ∧ Volume_Name v ∈ names.
Proof.
  induction names as [|name names IH]; intros volumes modified.
  - simpl. split; [by left|]. intros [?|(v & _ & Hin)]; [done|].
    by apply elem_of_nil in Hin.
  - simpl.
    pose proof (removeFirstNamed_found Volume_Name name volumes) as Hfound.
    pose proof (removeFirstNamed_not_found Volume_Name name volumes) as Hsame.
    destruct (removeFirstNamed Volume_Name name volumes) as [volumes1 [|]];
      simpl in Hfound, Hsame; rewrite IH.
    + split; [|by left]. intros _. right.
      destruct (proj1 Hfound eq_refl) as (v & Hv & Heq).
      exists v. split; [done|]. rewrite Heq. apply list_elem_of_here.
    + rewrite (Hsame eq_refl). split.
      * intros [?|(v & Hv & Hin)]; [by left|]. right.
        exists v. split; [done|]. by apply list_elem_of_further.
      * intros [?|(v & Hv & [Heq|Hin]%elem_of_cons)]; [by left| |].
        -- assert (false = true) by (apply Hfound; by exists v). done.
        -- right. by exists v.
Qed.

Lemma without_TLS_mounts_removeMounts c :
  without_TLS_mounts
    (set_VolumeMounts (removeMounts volumeNamesToRemove (Container_VolumeMounts c)) c)
  = without_TLS_mounts c.
Proof.
  unfold without_TLS_mounts. destruct c. cbn [Container_VolumeMounts set_VolumeMounts].
  by rewrite filter_removeMounts.
Qed.

Lemma removeMounts_range_all containers :
  for_range 0 containers removeMounts_at containers
  = Some ((λ c, set_VolumeMounts
                  (removeMounts volumeNamesToRemove (Container_VolumeMounts c)) c)
            <$> containers).
Proof. exact (removeMounts_range containers []). Qed.

(** X17.  On every Deployment, repeated names included,
    [DeploymentRemoveTLSVolumesAndMountsMutator] returns a nil error without
    panicking; [changed] is true exactly when a volume is named
    "writable-tls" or "tls-secret"; and it touches nothing but volumes and
    mounts of these two names: with those deleted on both sides, the result
    and the original are the same Deployment. *)
Theorem DeploymentRemoveTLSVolumesAndMountsMutator_only_TLS desired existing :
  ∃ existing' changed,
    DeploymentRemoveTLSVolumesAndMountsMutator desired existing
    = Returned existing' changed None
    ∧ (changed = true ↔ has_TLS_volume existing)
    ∧ without_TLS existing' = without_TLS existing.
Proof.
  unfold DeploymentRemoveTLSVolumesAndMountsMutator, has_TLS_volume.
  destruct (Spec_Template_Spec_Volumes existing) as [volumes|] eqn:Hvolumes.
  - pose proof (removeVolumes_modified volumeNamesToRemove volumes false) as Hflag.
    pose proof (filter_removeVolumes (λ v, Volume_Name v ∉ volumeNamesToRemove)
                  volumeNamesToRemove volumes false (λ v Hv, Hv)) as Hlist.
    pose proof (removeVolumes_unmodified volumeNamesToRemove volumes false) as Hsame.
    destruct (removeVolumes volumeNamesToRemove volumes false) as [volumes' [|]];
      simpl in Hflag, Hlist, Hsame.
    + cbn [Spec_Template_Spec_Containers set_Volumes].
      rewrite removeMounts_range_all.
      cbn [Spec_Template_Spec_InitContainers set_Containers].
      rewrite removeMounts_range_all.
      eexists _, true. split; [done|]. split.
      * split; [|done]. intros _. destruct (proj1 Hflag eq_refl) as [?|?]; done.
      * unfold without_TLS, without_TLS_volumes.
        cbn [Spec_Template_Spec_InitContainers Spec_Template_Spec_Containers
             Spec_Template_Spec_Volumes set_InitContainers set_Containers set_Volumes
             elems default from_option id].
        rewrite Hvolumes. cbn [elems default from_option id].
        rewrite Hlist, <- !list_fmap_compose.
        rewrite (list_fmap_ext _ without_TLS_mounts
                   (Spec_Template_Spec_Containers existing))
          by (intros; apply without_TLS_mounts_removeMounts).
        rewrite (list_fmap_ext _ without_TLS_mounts
                   (Spec_Template_Spec_InitContainers existing))
          by (intros; apply without_TLS_mounts_removeMounts).
        by destruct existing.
    + destruct (Hsame eq_refl) as [-> _]. rewrite set_Volumes_same by done.
      exists existing, false. split; [done|]. split; [|done].
      split; [done|]. intros Hhas. apply Hflag. by right.
  - exists existing, false. split; [done|]. split; [|done].
    split; [done|]. intros (v & Hv & _). by apply elem_of_nil in Hv.
Qed.

(** ** Resources, duplicate pruning and env reconciliation over the helpers *)

(** X18.  With a [helper.CmpResources] that finds equal resources equal,
    [DeploymentContainerResourcesMutator] is idempotent: after a call that
    returned a nil error, a second call changes nothing and returns
    [changed = false]. *)
Theorem DeploymentContainerResourcesMutator_idempotent info cmp desired existing
    existing' changed :
  (∀ r, cmp r r = true) →
  DeploymentContainerResourcesMutator info cmp desired existing
  = Returned existing' changed None →
  DeploymentContainerResourcesMutator info cmp desired existing'
  = Returned existing' false None.
Proof.
  intros Hrefl. unfold DeploymentContainerResourcesMutator.
  destruct (decide (length (Spec_Template_Spec_Containers desired) ≠ 1))
    as [|Hone%dec_stable]; [done|].
  destruct (Spec_Template_Spec_Containers desired) as [|d0 [|]] eqn:Hdesired;
    try done.
  destruct (decide (length (Spec_Template_Spec_Containers existing) ≠ 1))
    as [Hlen|Hlen%dec_stable]; cbn beta iota.
  - simpl. rewrite Hrefl. simpl. intros [= <- _]. simpl. by rewrite Hrefl.
  - destruct (Spec_Template_Spec_Containers existing) as [|e0 [|]] eqn:Hexisting;
      try done.
    simpl.
    destruct (cmp (Container_Resources e0) (Container_Resources d0)) eqn:Hcmp;
      simpl; intros [= <- _].
    + rewrite Hexisting. simpl. rewrite Hexisting. simpl. by rewrite Hcmp.
    + simpl. by rewrite Hrefl.
Qed.

Lemma RemoveDuplicateEnvVarMutator_at_spec prune i x containers updated :
  RemoveDuplicateEnvVarMutator_at prune i x (containers, updated)
  = match containers !! i with
    | None => None
    | Some c =>
        Some (<[i := set_Env (prune (Container_Env c)) c]> containers,
              if decide (Container_Env c ≠ prune (Container_Env c)) then true
              else updated)
    end.
Proof.
  unfold RemoveDuplicateEnvVarMutator_at.
  destruct (containers !! i) as [c|] eqn:Hc; [|done].
  case_decide as Hdiff; [done|].
  by rewrite <- Hdiff, set_Env_same, list_insert_id.
Qed.

Lemma overlay_self (f : Container → Container) (cs : list Container) :
  overlay (λ _ c, f c) cs cs = f <$> cs.
Proof. induction cs as [|c cs IH]; [done|]. simpl. by rewrite IH. Qed.

Lemma differs_somewhere_self (P : Container → Prop) (cs : list Container) :
  differs_somewhere (λ _ c, P c) cs cs ↔ ∃ c, c ∈ cs ∧ P c.
Proof.
  split.
  - intros (i & d & c & _ & Hc & HP). exists c. split; [|done].
    by eapply list_elem_of_lookup_2.
  - intros (c & [i Hi]%list_elem_of_lookup & HP). by exists i, c, c.
Qed.

Lemma DeploymentRemoveDuplicateEnvVarMutator_run prune desired existing :
  ∃ changed,
    DeploymentRemoveDuplicateEnvVarMutator prune desired existing
    = Returned
        (set_Containers
           ((λ c, set_Env (prune (Container_Env c)) c)
              <$> Spec_Template_Spec_Containers existing) existing)
        changed None
    ∧ (changed = true
       ↔ ∃ c, c ∈ Spec_Template_Spec_Containers existing
              ∧ Container_Env c ≠ prune (Container_Env c)).
Proof.
  destruct (replace_loop (RemoveDuplicateEnvVarMutator_at prune)
              (λ _ c, set_Env (prune (Container_Env c)) c)
              (λ _ c, Container_Env c ≠ prune (Container_Env c))
              (RemoveDuplicateEnvVarMutator_at_spec prune)
              (Spec_Template_Spec_Containers existing) []
              (Spec_Template_Spec_Containers existing) false)
    as (changed & Hrun & Hchanged); [done|].
  simpl in Hrun. rewrite overlay_self in Hrun.
  rewrite differs_somewhere_self in Hchanged.
  exists changed. unfold DeploymentRemoveDuplicateEnvVarMutator. rewrite Hrun.
  split; [done|]. rewrite Hchanged. split; [by intros [?|?]|by right].
Qed.

(** X19.  For every [helper.RemoveDuplicateEnvVars],
    [DeploymentRemoveDuplicateEnvVarMutator] never panics and never returns
    an error; it replaces the environment of every container (and of no init
    container) by what the helper returns for it; [changed] is true exactly
    when the helper changes the environment of some container, a nil slice
    made empty or an empty one made nil included, as [reflect.DeepEqual]
    has it; and when the helper is idempotent, so is the mutator. *)
Theorem DeploymentRemoveDuplicateEnvVarMutator_prunes prune desired existing :
  ∃ changed,
    let existing' :=
      set_Containers
        ((λ c, set_Env (prune (Container_Env c)) c)
           <$> Spec_Template_Spec_Containers existing) existing in
    DeploymentRemoveDuplicateEnvVarMutator prune desired existing
    = Returned existing' changed None
    ∧ (changed = true
       ↔ ∃ c, c ∈ Spec_Template_Spec_Containers existing
              ∧ Container_Env c ≠ prune (Container_Env c))
    ∧ ((∀ env, prune (prune env) = prune env) →
       DeploymentRemoveDuplicateEnvVarMutator prune desired existing'
       = Returned existing' false None).
Proof.
  destruct (DeploymentRemoveDuplicateEnvVarMutator_run prune desired existing)
    as (changed & Hrun & Hchanged).
  exists changed. split; [done|]. split; [done|]. intros Hidem.
  destruct (DeploymentRemoveDuplicateEnvVarMutator_run prune desired
              (set_Containers
                 ((λ c, set_Env (prune (Container_Env c)) c)
                    <$> Spec_Template_Spec_Containers existing) existing))
    as (again & Hagain & Hflag).
  cbn [Spec_Template_Spec_Containers set_Containers] in Hagain, Hflag.
  rewrite Hagain. rewrite <- list_fmap_compose.
  assert (again = false) as ->.
  { destruct again; [|done].
    destruct (proj1 Hflag eq_refl) as (c & (c0 & -> & _)%list_elem_of_fmap & Hne).
    simpl in Hne. by rewrite Hidem in Hne. }
  rewrite (list_fmap_ext _ (λ c, set_Env (prune (Container_Env c)) c)
             (Spec_Template_Spec_Containers existing)); [done|].
  intros i c _. unfold set_Env. simpl. by rewrite Hidem.
Qed.

Lemma EnvVarReconciler_loop reconcile envVar l :
  ∀ (dp ds p : list Container) (updated : bool),
    length dp = length p → length ds = length l →
    ∃ updated',
      for_range (length p) l (EnvVarReconciler_at reconcile (dp ++ ds) envVar)
        (p ++ l, updated)
      = Some (p ++ overlay
                     (λ d e, set_Env (reconcile (Container_Env d) (Container_Env e)
                                        envVar).1 e) ds l,
              updated')
      ∧ (updated' = true
         ↔ updated = true
           ∨ differs_somewhere
               (λ d e, (reconcile (Container_Env d) (Container_Env e) envVar).2 = true)
               ds l).
Proof.
  induction l as [|e l IH]; intros dp ds p updated Hdp Hds.
  - destruct ds; [|done]. exists updated. split; [done|]. split; [by left|].
    intros [?|Hdiff]; [done|]. by apply differs_somewhere_nil in Hdiff.
  - destruct ds as [|d ds]; [done|].
    assert ((dp ++ d :: ds) !! length p = Some d) as Hd
      by (rewrite <- Hdp; by apply list_lookup_middle).
    rewrite for_range_cons. unfold EnvVarReconciler_at at 1.
    rewrite Hd, list_lookup_middle by done.
    destruct (reconcile (Container_Env d) (Container_Env e) envVar)
      as [env tmpChanged] eqn:Hreconcile.
    rewrite insert_at_length.
    destruct (IH (dp ++ [d]) ds (p ++ [set_Env env e]) (updated || tmpChanged))
      as (updated' & Hloop & Hflag).
    { rewrite !length_app. simpl. lia. }
    { simpl in Hds. lia. }
    rewrite length_app, Nat.add_1_r, <- !app_assoc in Hloop. simpl in Hloop.
    exists updated'. cbn [overlay]. rewrite Hreconcile. split; [done|].
    rewrite Hflag, differs_somewhere_cons, Hreconcile. simpl.
    destruct updated, tmpChanged; simpl; naive_solver.
Qed.

(** X20.  When desired and existing have as many containers and as many
    init containers, [DeploymentEnvVarReconciler] does not panic, whatever
    [helper.EnvVarReconciler] is: every container and every init container
    of existing gets the environment the helper returns for it and the
    desired one at its index, nothing else changes, and the result is true
    exactly when the helper returned true for one of them. *)
Theorem DeploymentEnvVarReconciler_matching_shape reconcile desired existing envVar :
  length (Spec_Template_Spec_Containers desired)
    = length (Spec_Template_Spec_Containers existing) →
  length (Spec_Template_Spec_InitContainers desired)
    = length (Spec_Template_Spec_InitContainers existing) →
  ∃ updated,
    DeploymentEnvVarReconciler reconcile desired existing envVar
    = Some
        (set_Containers
           (overlay
              (λ d e, set_Env (reconcile (Container_Env d) (Container_Env e) envVar).1 e)
              (Spec_Template_Spec_Containers desired)
              (Spec_Template_Spec_Containers existing))
           (set_InitContainers
              (overlay
                 (λ d e, set_Env (reconcile (Container_Env d) (Container_Env e)
                                    envVar).1 e)
                 (Spec_Template_Spec_InitContainers desired)
                 (Spec_Template_Spec_InitContainers existing))
              existing),
         updated)
    ∧ (updated = true
       ↔ differs_somewhere
           (λ d e, (reconcile (Container_Env d) (Container_Env e) envVar).2 = true)
           (Spec_Template_Spec_InitContainers desired)
           (Spec_Template_Spec_InitContainers existing)
         ∨ differs_somewhere
             (λ d e, (reconcile (Container_Env d) (Container_Env e) envVar).2 = true)
             (Spec_Template_Spec_Containers desired)
             (Spec_Template_Spec_Containers existing)).
Proof.
  intros Hcontainers HinitContainers. unfold DeploymentEnvVarReconciler.
  rewrite !decide_False by (intros Hne; by apply Hne).
  destruct (EnvVarReconciler_loop reconcile envVar
              (Spec_Template_Spec_InitContainers existing) []
              (Spec_Template_Spec_InitContainers desired) [] false eq_refl
              HinitContainers) as (updated1 & Hloop1 & Hflag1).
  simpl in Hloop1. rewrite Hloop1.
  cbn [Spec_Template_Spec_Containers set_InitContainers].
  destruct (EnvVarReconciler_loop reconcile envVar
              (Spec_Template_Spec_Containers existing) []
              (Spec_Template_Spec_Containers desired) [] updated1 eq_refl
              Hcontainers) as (updated2 & Hloop2 & Hflag2).
  simpl in Hloop2. rewrite Hloop2.
  exists updated2. split; [done|]. rewrite Hflag2, Hflag1. naive_solver.
Qed.

(** ** The two listener args mutators *)

Lemma DeploymentListenerArgsMutator_sets desired existing c0 :
  Spec_Template_Spec_Containers existing !! 0 = Some c0 →
  ∃ existing' c0',
    DeploymentListenerArgsMutator desired existing
    = Returned existing' (bool_decide (Container_Args c0 ≠ Some falconArgs)) None
    ∧ Spec_Template_Spec_Containers existing' !! 0 = Some c0'
    ∧ Container_Args c0' = Some falconArgs.
Proof.
  intros Hc0. unfold DeploymentListenerArgsMutator. rewrite Hc0.
  destruct (decide (Container_Args c0 ≠ Some falconArgs)) as [Hne|Heq%dec_stable].
  - rewrite bool_decide_eq_true_2 by done. eexists _, _. split; [done|].
    split; [simpl; apply list_lookup_insert_eq; by eapply lookup_lt_Some|done].
  - rewrite bool_decide_eq_false_2 by (intros Hne; by apply Hne). by exists existing, c0.
Qed.

Lemma DeploymentListenerAsyncDisableArgsMutator_sets desired existing c0 :
  Spec_Template_Spec_Containers existing !! 0 = Some c0 →
  ∃ existing' c0',
    DeploymentListenerAsyncDisableArgsMutator desired existing
    = Returned existing' (bool_decide (Container_Args c0 ≠ Some asyncDisableArgs)) None
    ∧ Spec_Template_Spec_Containers existing' !! 0 = Some c0'
    ∧ Container_Args c0' = Some asyncDisableArgs.
Proof.
  intros Hc0. unfold DeploymentListenerAsyncDisableArgsMutator. rewrite Hc0.
  destruct (decide (Container_Args c0 ≠ Some asyncDisableArgs)) as [Hne|Heq%dec_stable].
  - rewrite bool_decide_eq_true_2 by done. eexists _, _. split; [done|].
    split; [simpl; apply list_lookup_insert_eq; by eapply lookup_lt_Some|done].
  - rewrite bool_decide_eq_false_2 by (intros Hne; by apply Hne). by exists existing, c0.
Qed.

(** X21.  On a Deployment with a first container, each of
    [DeploymentListenerArgsMutator] and
    [DeploymentListenerAsyncDisableArgsMutator] returns a nil error and is
    idempotent, and the two undo each other: called on what the other left,
    each reports a change. *)
Theorem listener_args_mutators_alternate desired existing c0 :
  Spec_Template_Spec_Containers existing !! 0 = Some c0 →
  ∃ falcon changed1 plain changed2,
    DeploymentListenerArgsMutator desired existing = Returned falcon changed1 None
    ∧ DeploymentListenerArgsMutator desired falcon = Returned falcon false None
    ∧ DeploymentListenerAsyncDisableArgsMutator desired existing
      = Returned plain changed2 None
    ∧ DeploymentListenerAsyncDisableArgsMutator desired plain
      = Returned plain false None
    ∧ (∃ result,
         DeploymentListenerAsyncDisableArgsMutator desired falcon
         = Returned result true None)
    ∧ (∃ result,
         DeploymentListenerArgsMutator desired plain = Returned result true None).
Proof.
  intros Hc0.
  destruct (DeploymentListenerArgsMutator_sets desired existing c0 Hc0)
    as (falcon & f0 & Hfalcon & Hf0 & Hfargs).
  destruct (DeploymentListenerAsyncDisableArgsMutator_sets desired existing c0 Hc0)
    as (plain & p0 & Hplain & Hp0 & Hpargs).
  exists falcon, (bool_decide (Container_Args c0 ≠ Some falconArgs)),
         plain, (bool_decide (Container_Args c0 ≠ Some asyncDisableArgs)).
  split; [done|]. split.
  { unfold DeploymentListenerArgsMutator. rewrite Hf0.
    by rewrite decide_False by (intros Hne; by apply Hne). }
  split; [done|]. split.
  { unfold DeploymentListenerAsyncDisableArgsMutator. rewrite Hp0.
    by rewrite decide_False by (intros Hne; by apply Hne). }
  split.
  - unfold DeploymentListenerAsyncDisableArgsMutator. rewrite Hf0.
    rewrite decide_True by (by rewrite Hfargs). eauto.
  - unfold DeploymentListenerArgsMutator. rewrite Hp0.
    rewrite decide_True by (by rewrite Hpargs). eauto.
Qed.

(** ** Concrete instances *)

(** A nil slice is not an empty one: on nil args and desired empty args,
    [DeploymentArgsMutator] stores the empty slice and reports a change, and
    so does [DeploymentPodInitContainerMutator] on init containers that
    differ in this only; [DeploymentRemoveDuplicateEnvVarMutator] reports one
    when the helper returns an empty slice for a nil environment. *)
Example DeploymentArgsMutator_nil_is_not_empty :
  let desired := sample_deployment None [] [set_Args (Some []) (sample_container [] [])] in
  let existing := sample_deployment None [] [sample_container [] []] in
  DeploymentArgsMutator desired existing = Returned desired true None
  ∧ DeploymentArgsMutator existing existing = Returned existing false None.
Proof. split; reflexivity. Qed.

Example DeploymentPodInitContainerMutator_nil_is_not_empty :
  let desired := sample_deployment None [set_Args (Some []) (sample_container [] [])] [] in
  let existing := sample_deployment None [sample_container [] []] [] in
  DeploymentPodInitContainerMutator desired existing = Returned desired true None
  ∧ DeploymentPodInitContainerMutator existing existing = Returned existing false None.
Proof. split; reflexivity. Qed.

Example DeploymentRemoveDuplicateEnvVarMutator_nil_is_not_empty :
  let existing := listener [] in
  DeploymentRemoveDuplicateEnvVarMutator (λ _, Some []) existing existing
  = Returned
      (set_Containers [set_Env (Some []) (sample_container [] [])] existing) true None
  ∧ DeploymentRemoveDuplicateEnvVarMutator (λ env, env) existing existing
    = Returned existing false None.
Proof. split; reflexivity. Qed.

Lemma DeploymentMutator_quiet_witness :
  let d := sample_deployment None [] [sample_container [] []] in
  let opts := [DeploymentPriorityClassMutator; DeploymentArgsMutator] in
  Forall quiet opts
  ∧ DeploymentMutator opts (ObjDeployment d) (ObjDeployment d)
    = Returned (ObjDeployment d) false None
  ∧ ObjDeployment d = ObjDeployment d.
Proof.
  intros d opts.
  assert (Forall quiet opts) as Hquiet.
  { apply Forall_cons_2; [apply DeploymentPriorityClassMutator_quiet|].
    apply Forall_cons_2; [apply DeploymentArgsMutator_quiet|apply Forall_nil_2]. }
  split; [exact Hquiet|]. split; [reflexivity|].
  apply (DeploymentMutator_quiet opts d d (ObjDeployment d) Hquiet). reflexivity.
Defined.

Lemma DeploymentListenerEnvMutator_settles_witness :
  let env := [LISTENER_WORKERS "1"; CONFIG_REDIS_ASYNC "0"] in
  ∃ existing' changed,
    DeploymentListenerEnvMutator (listener []) (listener env)
    = Returned existing' changed None
    ∧ (changed = false ↔ settled_listener "0" env)
    ∧ (changed = false → existing' = listener env).
Proof.
  intros env.
  apply (DeploymentListenerEnvMutator_settles (listener []) (listener env)
           (sample_container env [])).
  reflexivity.
Defined.

Lemma DeploymentListenerEnvMutator_keeps_names_witness :
  let env := [LISTENER_WORKERS "0"] in
  ∃ env' changed,
    DeploymentListenerEnvMutator (listener []) (listener env)
    = Returned
        (set_Containers
           (<[0 := set_Env env' (sample_container env [])]>
              (Spec_Template_Spec_Containers (listener env))) (listener env))
        changed None
    ∧ EnvVar_Name <$> env `prefix_of` EnvVar_Name <$> elems env'
    ∧ length (elems env') ≤ length env + 2.
Proof.
  intros env.
  apply (DeploymentListenerEnvMutator_keeps_names (listener []) (listener env)
           (sample_container env [])).
  reflexivity.
Defined.

Lemma DeploymentListenerAsyncDisableEnvMutator_settles_witness :
  let env := [CONFIG_REDIS_ASYNC "0"] in
  ∃ existing' changed,
    DeploymentListenerAsyncDisableEnvMutator (listener []) (listener env)
    = Returned existing' changed None
    ∧ (changed = false ↔ settled_listener "1" env)
    ∧ (changed = false → existing' = listener env).
Proof.
  intros env.
  apply (DeploymentListenerAsyncDisableEnvMutator_settles (listener []) (listener env)
           (sample_container env [])).
  reflexivity.
Defined.

Lemma worker_env_mutators_settle_witness :
  let env := [CONFIG_REDIS_ASYNC "1"] in
  (∃ existing' changed,
     DeploymentWorkerEnvMutator (listener []) (listener env)
     = Returned existing' changed None
     ∧ (changed = false ↔ settled_worker "0" env)
     ∧ (changed = false → existing' = listener env))
  ∧ (∃ existing' changed,
       DeploymentWorkerDisableAsyncEnvMutator (listener []) (listener env)
       = Returned existing' changed None
       ∧ (changed = false ↔ settled_worker "1" env)
       ∧ (changed = false → existing' = listener env)).
Proof.
  intros env.
  apply (worker_env_mutators_settle (listener []) (listener env)
           (sample_container env [])).
  reflexivity.
Defined.

Lemma DeploymentArgsMutator_converges_witness :
  let desired :=
    sample_deployment None [] [set_Args (Some falconArgs) (sample_container [] [])] in
  let existing :=
    sample_deployment None [] [sample_container [] []; sample_container [] []] in
  ∃ changed,
    let existing' :=
      sample_deployment None []
        [set_Args (Some falconArgs) (sample_container [] []); sample_container [] []] in
    DeploymentArgsMutator desired existing = Returned existing' changed None
    ∧ (changed = true
       ↔ differs_somewhere (λ d e, Container_Args e ≠ Container_Args d)
           (Spec_Template_Spec_Containers desired)
           (Spec_Template_Spec_Containers existing))
    ∧ DeploymentArgsMutator desired existing' = Returned existing' false None.
Proof.
  intros desired existing.
  apply (DeploymentArgsMutator_converges desired existing). simpl. lia.
Defined.

Lemma DeploymentPodContainerImageMutator_converges_witness :
  let desired :=
    sample_deployment None [] [set_Image "backend:2.16" (sample_container [] [])] in
  let existing := sample_deployment None [] [sample_container [] []] in
  ∃ changed,
    let existing' :=
      sample_deployment None [] [set_Image "backend:2.16" (sample_container [] [])] in
    DeploymentPodContainerImageMutator desired existing = Returned existing' changed None
    ∧ (changed = true
       ↔ differs_somewhere (λ d e, Container_Image e ≠ Container_Image d)
           (Spec_Template_Spec_Containers desired)
           (Spec_Template_Spec_Containers existing))
    ∧ DeploymentPodContainerImageMutator desired existing'
      = Returned existing' false None.
Proof.
  intros desired existing.
  apply (DeploymentPodContainerImageMutator_converges desired existing). simpl. lia.
Defined.

Lemma DeploymentProbesMutator_converges_witness :
  let probe := Some {| Probe_Path := "/status"; Probe_Port := 3000%Z |} in
  let desired :=
    sample_deployment None [] [set_LivenessProbe probe (sample_container [] [])] in
  let existing := sample_deployment None [] [sample_container [] []] in
  ∃ changed,
    let existing' :=
      sample_deployment None [] [set_LivenessProbe probe (sample_container [] [])] in
    DeploymentProbesMutator desired existing = Returned existing' changed None
    ∧ (changed = true
       ↔ differs_somewhere
           (λ d e, Container_LivenessProbe e ≠ Container_LivenessProbe d
                   ∨ Container_ReadinessProbe e ≠ Container_ReadinessProbe d)
           (Spec_Template_Spec_Containers desired)
           (Spec_Template_Spec_Containers existing))
    ∧ DeploymentProbesMutator desired existing' = Returned existing' false None.
Proof.
  intros probe desired existing.
  apply (DeploymentProbesMutator_converges desired existing). simpl. lia.
Defined.

Lemma DeploymentPodInitContainerMutator_idempotent_witness :
  let desired := sample_deployment None [sample_container [] []] [] in
  let existing := sample_deployment None [] [] in
  DeploymentPodInitContainerMutator desired existing = Returned desired true None
  ∧ DeploymentPodInitContainerMutator desired desired = Returned desired false None.
Proof.
  intros desired existing. split; [reflexivity|].
  apply (DeploymentPodInitContainerMutator_idempotent desired existing desired true None).
  reflexivity.
Defined.

Lemma DeploymentSyncVolumesAndMountsMutator_idempotent_witness :
  let config := {| Volume_Name := "config"; Volume_Source := "configMap" |} in
  let mount := {| VolumeMount_Name := "config"; VolumeMount_MountPath := "/config" |} in
  let desired := sample_deployment (Some [config]) [] [sample_container [] [mount]] in
  let existing := sample_deployment None [] [sample_container [] []] in
  DeploymentSyncVolumesAndMountsMutator desired existing = Returned desired true None
  ∧ DeploymentSyncVolumesAndMountsMutator desired desired = Returned desired false None.
Proof.
  intros config mount desired existing. split; [reflexivity|].
  apply (DeploymentSyncVolumesAndMountsMutator_idempotent desired existing desired
           true None).
  reflexivity.
Defined.

Lemma DeploymentSyncVolumesAndMountsMutator_unique_names_witness :
  let config := {| Volume_Name := "config"; Volume_Source := "configMap" |} in
  let data := {| Volume_Name := "data"; Volume_Source := "emptyDir" |} in
  let desired := sample_deployment (Some [config; config; data]) [] [] in
  let existing := sample_deployment (Some [data]) [] [] in
  let existing' := sample_deployment (Some [data; config]) [] [] in
  NoDup (volume_names existing)
  ∧ DeploymentSyncVolumesAndMountsMutator desired existing = Returned existing' true None
  ∧ NoDup (volume_names existing').
Proof.
  intros config data desired existing existing'.
  assert (NoDup (volume_names existing)) as Hnodup.
  { apply NoDup_singleton. }
  split; [exact Hnodup|]. split; [reflexivity|].
  apply (DeploymentSyncVolumesAndMountsMutator_unique_names desired existing existing'
           true None Hnodup).
  reflexivity.
Defined.

Lemma DeploymentContainerResourcesMutator_idempotent_witness :
  let one := sample_container [] [] in
  let other :=
    set_Resources {| Limits := Some {["cpu" := 1000%Z]}; Requests := None |} one in
  let desired := sample_deployment None [] [other] in
  let existing := sample_deployment None [] [one] in
  (∀ r, sample_CmpResources r r = true)
  ∧ DeploymentContainerResourcesMutator sample_ObjectInfo sample_CmpResources
      desired existing
    = Returned desired true None
  ∧ DeploymentContainerResourcesMutator sample_ObjectInfo sample_CmpResources
      desired desired
    = Returned desired false None.
Proof.
  intros one other desired existing.
  assert (∀ r, sample_CmpResources r r = true) as Hrefl.
  { intros r. unfold sample_CmpResources. by apply bool_decide_eq_true_2. }
  split; [exact Hrefl|]. split; [reflexivity|].
  apply (DeploymentContainerResourcesMutator_idempotent sample_ObjectInfo
           sample_CmpResources desired existing desired true Hrefl).
  reflexivity.
Defined.

Lemma DeploymentRemoveDuplicateEnvVarMutator_prunes_witness :
  let first_only (env : option (list EnvVar)) := take 1 <$> env in
  let existing := listener [CONFIG_REDIS_ASYNC "0"; CONFIG_REDIS_ASYNC "1"] in
  let existing' := listener [CONFIG_REDIS_ASYNC "0"] in
  DeploymentRemoveDuplicateEnvVarMutator first_only existing existing
  = Returned existing' true None
  ∧ DeploymentRemoveDuplicateEnvVarMutator first_only existing existing'
    = Returned existing' false None.
Proof.
  intros first_only existing existing'.
  destruct (DeploymentRemoveDuplicateEnvVarMutator_prunes first_only existing existing)
    as (changed & Hrun & _ & Hagain).
  split; [reflexivity|].
  apply Hagain. intros [env|]; [|done]. unfold first_only. simpl. by rewrite take_take.
Defined.

Lemma DeploymentEnvVarReconciler_matching_shape_witness :
  let take_desired (desired existing : option (list EnvVar)) (envVar : string) :=
    (desired, bool_decide (desired ≠ existing)) in
  let desired := listener [CONFIG_REDIS_ASYNC "1"] in
  let existing := listener [] in
  ∃ updated,
    DeploymentEnvVarReconciler take_desired desired existing "CONFIG_REDIS_ASYNC"
    = Some (desired, updated)
    ∧ (updated = true
       ↔ differs_somewhere
           (λ d e, (take_desired (Container_Env d) (Container_Env e)
                      "CONFIG_REDIS_ASYNC").2 = true)
           (Spec_Template_Spec_InitContainers desired)
           (Spec_Template_Spec_InitContainers existing)
         ∨ differs_somewhere
             (λ d e, (take_desired (Container_Env d) (Container_Env e)
                        "CONFIG_REDIS_ASYNC").2 = true)
             (Spec_Template_Spec_Containers desired)
             (Spec_Template_Spec_Containers existing)).
Proof.
  intros take_desired desired existing.
  apply (DeploymentEnvVarReconciler_matching_shape take_desired desired existing
           "CONFIG_REDIS_ASYNC"); reflexivity.
Defined.

Lemma listener_args_mutators_alternate_witness :
  let existing := listener [] in
  ∃ falcon changed1 plain changed2,
    DeploymentListenerArgsMutator existing existing = Returned falcon changed1 None
    ∧ DeploymentListenerArgsMutator existing falcon = Returned falcon false None
    ∧ DeploymentListenerAsyncDisableArgsMutator existing existing
      = Returned plain changed2 None
    ∧ DeploymentListenerAsyncDisableArgsMutator existing plain
      = Returned plain false None
    ∧ (∃ result,
         DeploymentListenerAsyncDisableArgsMutator existing falcon
         = Returned result true None)
    ∧ (∃ result,
         DeploymentListenerArgsMutator existing plain = Returned result true None).
Proof.
  intros existing.
  apply (listener_args_mutators_alternate existing existing (sample_container [] [])).
  reflexivity.
Defined.
